(** * svg2png-many: a shallow embedding of [src/svg2png-many.js]

    The development follows the layout of the source file:

    - the two regular expressions of the module ([SVG_REGEX] and the
      percentage test of [getSVGDimensions]);
    - the numbers of the scripting language, as an interface;
    - the two functions evaluated inside the page, [getSVGDimensions] and
      [setSVGDimensions], over the attributes of the root element;
    - [convert], the promise chain of one job, as a state and error monad
      over the page and the log of collaborator calls;
    - [convertMany], the pool of workers, as a step function over the
      variables the closures share;
    - [svg2PngDir], the construction of the file map.

    Strings are sequences of code units below 256.  Objects used as maps
    are [gmap]s. *)

From Stdlib Require Import ZArith Ascii String List Lia Bool.
From Stdlib Require Import Decimal DecimalString DecimalZ.
From stdpp Require Import gmap strings list fin_maps.

Local Open Scope stdpp_scope.

(** ** Regular expressions *)

Module Regex.

(** [\s] restricted to code units below 256: TAB, LF, VT, FF, CR, SP, NBSP. *)
Definition is_space (c : ascii) : bool :=
  let n := nat_of_ascii c in
  ((9 <=? n) && (n <=? 13) || (n =? 32) || (n =? 160))%nat.

(** [\s*$] matched at the current position. *)
Fixpoint spaces_to_end (s : string) : bool :=
  match s with
  | EmptyString => true
  | String c s' => is_space c && spaces_to_end s'
  end.

(** [/%\s*$/.test(s)]: some position holds a percent sign followed by
    white space only. *)
Fixpoint percent_test (s : string) : bool :=
  match s with
  | EmptyString => false
  | String c s' =>
      (Ascii.eqb c "%" && spaces_to_end s') || percent_test s'
  end.

(** Case-insensitive comparison with a lower-case ASCII letter: the
    canonicalisation of the [i] flag never maps a code unit at or above
    128 to one below. *)
Definition eqb_ci (lower upper c : ascii) : bool :=
  Ascii.eqb c lower || Ascii.eqb c upper.

(** [\.svg$] matched at the current position. *)
Definition svg_here (s : string) : bool :=
  match s with
  | String c0 (String c1 (String c2 (String c3 EmptyString))) =>
      Ascii.eqb c0 "." && eqb_ci "s" "S" c1 && eqb_ci "v" "V" c2
      && eqb_ci "g" "G" c3
  | _ => false
  end.

(** [SVG_REGEX.test(s)] with [SVG_REGEX = /\.svg$/i]. *)
Fixpoint SVG_REGEX_test (s : string) : bool :=
  match s with
  | EmptyString => false
  | String _ s' => svg_here s || SVG_REGEX_test s'
  end.

(** The four-character endings the filter accepts. *)
Definition svg_suffix (x : string) : Prop :=
  exists c1 c2 c3,
    x = String "." (String c1 (String c2 (String c3 EmptyString)))
    /\ (c1 = "s" \/ c1 = "S")%char
    /\ (c2 = "v" \/ c2 = "V")%char
    /\ (c3 = "g" \/ c3 = "G")%char.

Lemma eqb_ci_spec lower upper c :
  eqb_ci lower upper c = true <-> c = lower \/ c = upper.
Proof.
  unfold eqb_ci. rewrite orb_true_iff, !Ascii.eqb_eq. tauto.
Qed.

Lemma svg_here_spec s : svg_here s = true <-> svg_suffix s.
Proof.
  unfold svg_suffix. split.
  - destruct s as [|c0 [|c1 [|c2 [|c3 [|? ?]]]]]; simpl; try discriminate.
    rewrite !andb_true_iff, !eqb_ci_spec, Ascii.eqb_eq.
    intros [[[-> H1] H2] H3]. exists c1, c2, c3. auto.
  - intros (c1 & c2 & c3 & -> & H1 & H2 & H3). simpl.
    rewrite !andb_true_iff, !eqb_ci_spec. auto.
Qed.

Lemma SVG_REGEX_test_spec s :
  SVG_REGEX_test s = true <-> exists stem x, s = stem +:+ x /\ svg_suffix x.
Proof.
  induction s as [|c s IH].
  - simpl. split; [discriminate|].
    intros (stem & x & Hs & (c1 & c2 & c3 & -> & _)).
    destruct stem; discriminate.
  - cbn [SVG_REGEX_test]. rewrite orb_true_iff, svg_here_spec, IH. split.
    + intros [H | (stem & x & -> & H)].
      * exists EmptyString, (String c s). auto.
      * exists (String c stem), x. auto.
    + intros (stem & x & Hs & H). destruct stem as [|c' stem].
      * left. cbn in Hs. now rewrite Hs.
      * right. injection Hs as -> ->. eauto.
Qed.

Lemma spaces_to_end_px s : spaces_to_end (s +:+ "px") = false.
Proof.
  induction s as [|c s IH]; [reflexivity|].
  simpl. rewrite IH. apply andb_false_r.
Qed.

(** A value with the unit suffix the module writes is never a percentage. *)
Lemma percent_test_px s : percent_test (s +:+ "px") = false.
Proof.
  induction s as [|c s IH]; [reflexivity|].
  change (percent_test (String c s +:+ "px")) with
    ((Ascii.eqb c "%" && spaces_to_end (s +:+ "px")) || percent_test (s +:+ "px")).
  rewrite IH, spaces_to_end_px. now rewrite andb_false_r.
Qed.

(** A value that ends in a percent sign is a percentage. *)
Lemma percent_test_ends s : percent_test (s +:+ "%") = true.
Proof.
  induction s as [|c s IH]; [reflexivity|].
  change (percent_test (String c s +:+ "%")) with
    ((Ascii.eqb c "%" && spaces_to_end (s +:+ "%")) || percent_test (s +:+ "%")).
  rewrite IH. apply orb_true_r.
Qed.

End Regex.

(** ** Numbers

    The module computes with the double-precision numbers of the scripting
    language.  Their arithmetic stays abstract; the laws are the facts of
    the language the module relies on: [NaN] and zero are falsy,
    [parseFloat(null)] is [NaN], and the text of a truthy number, followed
    by a unit, parses back to that number. *)

Class JSNumber (number : Type) := {
  NaN : number;
  zero : number;
  ToBoolean : number -> bool;
  mul : number -> number -> number;
  div : number -> number -> number;
  ToString : number -> string;
  parseFloat : string -> number;
  ToBoolean_NaN : ToBoolean NaN = false;
  ToBoolean_zero : ToBoolean zero = false;
  parseFloat_null : parseFloat "null" = NaN;
  parseFloat_px :
    forall n, ToBoolean n = true -> parseFloat (ToString n +:+ "px") = n
}.

(** ** Values crossing the page boundary *)

(** What a promise of the module is rejected with. *)
Inductive error :=
| Error (message : string)   (* [new Error(message)] *)
| TypeError                  (* raised by a property access on null or undefined *)
| Fault (origin : string).   (* raised by a collaborator: engine bridge, file system *)

Section Svg2PngMany.

Context {number : Type} `{JSNumber number}.

(** [@typedef Sizes]: both properties are optional. *)
Record Sizes := { width : option number; height : option number }.

(** What [page.evaluate] hands back: [null], a sizes object, or the
    error marker [{error: e}]. *)
Inductive result :=
| Null
| SizesObj (sizes : Sizes)
| ErrorObj (e : error).

(** The root element of the page: its attributes, and the animated value
    of its [viewBox] property, which only an [svg] root has. *)
Record Element := {
  attributes : gmap string string;
  viewBox : option (number * number)
}.

Definition getAttribute (el : Element) (name : string) : option string :=
  attributes el !! name.

Definition setAttribute (el : Element) (name value : string) : Element :=
  {| attributes := <[name := value]> (attributes el); viewBox := viewBox el |}.

Definition removeAttribute (el : Element) (name : string) : Element :=
  {| attributes := delete name (attributes el); viewBox := viewBox el |}.

(** The value of [!isPercent && parseFloat(attr)]: [false] or a number. *)
Inductive value :=
| VFalse
| VNumber (n : number).

Definition truthy (v : value) : bool :=
  match v with
  | VFalse => false
  | VNumber n => ToBoolean n
  end.

Definition number_of (v : value) : option number :=
  match v with
  | VFalse => None
  | VNumber n => Some n
  end.

(** [attr || ""] *)
Definition or_empty (attr : option string) : string := default "" attr.

(** [parseFloat(attr)]: a null argument is first converted to its text. *)
Definition parseFloat_arg (attr : option string) : number :=
  parseFloat (default "null" attr).

(** [!isPercent && parseFloat(attr)] *)
Definition not_percent_and (isPercent : bool) (n : number) : value :=
  if isPercent then VFalse else VNumber n.

(** [getSVGDimensions], lines 235-265.  The only statement of the [try]
    block that can raise is the read of [el.viewBox.animVal]. *)
Definition getSVGDimensions (el : Element) : result :=
  let widthIsPercent :=
    Regex.percent_test (or_empty (getAttribute el "width")) in
  let heightIsPercent :=
    Regex.percent_test (or_empty (getAttribute el "height")) in
  let w := not_percent_and widthIsPercent
             (parseFloat_arg (getAttribute el "width")) in
  let h := not_percent_and heightIsPercent
             (parseFloat_arg (getAttribute el "height")) in
  if truthy w && truthy h then
    SizesObj {| width := number_of w; height := number_of h |}
  else
    match viewBox el with
    | None => ErrorObj TypeError
    | Some (viewBoxWidth, viewBoxHeight) =>
        if truthy w && ToBoolean viewBoxHeight then
          SizesObj {| width := number_of w;
                      height := (fun n => div (mul n viewBoxHeight) viewBoxWidth)
                                  <$> number_of w |}
        else if truthy h && ToBoolean viewBoxWidth then
          SizesObj {| width := (fun n => div (mul n viewBoxWidth) viewBoxHeight)
                                 <$> number_of h;
                      height := number_of h |}
        else Null
    end.

(** Truth value of an optional property: [undefined] is falsy. *)
Definition provided (dimension : option number) : bool :=
  match dimension with
  | None => false
  | Some n => ToBoolean n
  end.

(** [x + "px"] *)
Definition px (n : number) : string := ToString n +:+ "px".

(** The two [if (!!x) setAttribute else removeAttribute] statements. *)
Definition apply_dimension (name : string) (dimension : option number)
    (el : Element) : Element :=
  match dimension with
  | Some n =>
      if ToBoolean n then setAttribute el name (px n)
      else removeAttribute el name
  | None => removeAttribute el name
  end.

(** [setSVGDimensions], lines 273-302.  Reading a property of [null]
    raises inside the [try] block; an object without the two properties
    (the error marker, say) reads as two [undefined]. *)
Definition setSVGDimensions (el : Element) (sizes : result)
    : Element * result :=
  match sizes with
  | Null => (el, ErrorObj TypeError)
  | ErrorObj _ => (el, sizes)
  | SizesObj s =>
      if negb (provided (width s)) && negb (provided (height s)) then
        (el, sizes)
      else
        (apply_dimension "height" (height s)
           (apply_dimension "width" (width s) el), sizes)
  end.

(** [checkEvalError], lines 198-203: an object with a truthy [error]
    property becomes a rejection. *)
Definition checkEvalError (r : result) : error + result :=
  match r with
  | ErrorObj e => inl e
  | _ => inr r
  end.

(** A dimension as the documentation of the pipeline speaks of it: the
    attribute of the root element, read as a number, unless its value is
    a percentage or the number is [NaN] or zero. *)
Definition declared (el : Element) (name : string) : option number :=
  match getAttribute el name with
  | None => None
  | Some s =>
      if Regex.percent_test s then None
      else if ToBoolean (parseFloat s) then Some (parseFloat s) else None
  end.

(** The documented result of the intrinsic-size query on an [svg] root
    with view box [viewBoxWidth] by [viewBoxHeight]. *)
Definition getIntrinsicSize_spec (el : Element)
    (viewBoxWidth viewBoxHeight : number) : result :=
  match declared el "width", declared el "height" with
  | Some w, Some h => SizesObj {| width := Some w; height := Some h |}
  | Some w, None =>
      if ToBoolean viewBoxHeight then
        SizesObj {| width := Some w;
                    height := Some (div (mul w viewBoxHeight) viewBoxWidth) |}
      else Null
  | None, Some h =>
      if ToBoolean viewBoxWidth then
        SizesObj {| width := Some (div (mul h viewBoxWidth) viewBoxHeight);
                    height := Some h |}
      else Null
  | None, None => Null
  end.

(** ** One job: [convert] and [saveBuffer]

    The collaborators of a job are the engine page, the file system and
    the two base64 codecs.  A [World] fixes what they answer to this job;
    the job threads the page and the log of collaborator calls. *)

Inductive call :=
| CreatePage | ReadFile | Open | Evaluate | SetViewport | RenderBase64
| Close | WriteFile.

#[global] Instance call_eq_dec : EqDecision call.
Proof. solve_decision. Defined.

Record World := {
  createPage_reply : option error;      (* [None]: the page is handed over *)
  readFile_reply : error + string;      (* the bytes of the source file *)
  readFile_first : bool;                (* the read settles before the page *)
  open_reply : error + string;          (* the status string of [page.open] *)
  document : Element;                   (* root of the document once loaded *)
  evaluate_reply : nat -> option error; (* failure of the k-th evaluation *)
  property_reply : option error;        (* failure of the viewport update *)
  renderBase64_reply : error + string;  (* the image, base64 text *)
  writeFile_reply : option error
}.

Record State := {
  root : Element;
  viewportSize : option result;
  log : list call
}.

(** A fresh page shows an empty document whose root is not an [svg]. *)
Definition blank : Element := {| attributes := ∅; viewBox := None |}.

Definition start : State :=
  {| root := blank; viewportSize := None; log := [] |}.

(** A promise chain run to its settlement. *)
Definition Promise (A : Type) : Type := State -> State * (error + A).

Definition resolve {A} (a : A) : Promise A := fun st => (st, inr a).

Definition reject {A} (e : error) : Promise A := fun st => (st, inl e).

(** [p.then(onFulfilled, onRejected)] *)
Definition then2 {A B} (p : Promise A) (onFulfilled : A -> Promise B)
    (onRejected : error -> Promise B) : Promise B :=
  fun st =>
    match p st with
    | (st', inr a) => onFulfilled a st'
    | (st', inl e) => onRejected e st'
    end.

(** [p.then(onFulfilled)] *)
Definition then1 {A B} (p : Promise A) (onFulfilled : A -> Promise B)
    : Promise B :=
  then2 p onFulfilled reject.

(** [Promise.all([p, q])]: both operations are started; the first
    rejection wins. *)
Definition all2 {A B} (q_first : bool) (p : Promise A) (q : Promise B)
    : Promise (A * B) :=
  fun st =>
    let (st1, a) := p st in
    let (st2, b) := q st1 in
    (st2,
     match a, b with
     | inr x, inr y => inr (x, y)
     | inl e, inr _ => inl e
     | inr _, inl e => inl e
     | inl e1, inl e2 => inl (if q_first then e2 else e1)
     end).

Definition record (c : call) : Promise unit :=
  fun st =>
    ({| root := root st; viewportSize := viewportSize st;
        log := log st ++ [c] |}, inr tt).

Definition settle {A} (reply : error + A) : Promise A :=
  fun st => (st, reply).

Definition fail_if (reply : option error) : Promise unit :=
  fun st => (st, match reply with Some e => inl e | None => inr tt end).

Notation "'let!' x := p 'in' k" := (then1 p (fun x => k))
  (at level 10, x pattern, p at level 100, k at level 200).
Notation "p >>> k" := (then1 p (fun _ => k))
  (at level 100, k at level 200, right associativity).

Section Job.

Variable w : World.

(** The base64 codecs of [Buffer]. *)
Variable base64_encode : string -> string.
Variable base64_decode : string -> string.

Definition createPage : Promise unit :=
  record CreatePage >>> fail_if (createPage_reply w).

(** [fileToBase64], lines 209-220 *)
Definition fileToBase64 (filePath : string) : Promise string :=
  record ReadFile >>>
  let! data := settle (readFile_reply w) in
  resolve ("data:image/svg+xml;base64," +:+ base64_encode data).

(** [page.open(content)]: the page shows the document once it answers. *)
Definition page_open (content : string) : Promise string :=
  record Open >>>
  let! status := settle (open_reply w) in
  fun st =>
    ({| root := document w; viewportSize := viewportSize st;
        log := log st |}, inr status).

(** [page.evaluate(f, arg)], the k-th of the job. *)
Definition page_evaluate (k : nat) (f : Element -> Element * result)
    : Promise result :=
  record Evaluate >>>
  fail_if (evaluate_reply w k) >>>
  fun st =>
    let (el, r) := f (root st) in
    ({| root := el; viewportSize := viewportSize st; log := log st |},
     inr r).

(** [page.property('viewportSize', dimensions)] *)
Definition page_property_viewportSize (dimensions : result) : Promise unit :=
  record SetViewport >>>
  fail_if (property_reply w) >>>
  fun st =>
    ({| root := root st; viewportSize := Some dimensions; log := log st |},
     inr tt).

Definition page_renderBase64 : Promise string :=
  record RenderBase64 >>> settle (renderBase64_reply w).

Definition closePage : Promise unit := record Close.

Definition empty_sizes : Sizes := {| width := None; height := None |}.

(** Lines 166-174: [size || {}], then the three evaluations, each
    followed by [checkEvalError], then the viewport. *)
Definition resolveDimensions (size : option Sizes) : Promise unit :=
  let size := default empty_sizes size in
  let! r := page_evaluate 0 (fun el => setSVGDimensions el (SizesObj size)) in
  let! _ := settle (checkEvalError r) in
  let! r := page_evaluate 1 (fun el => (el, getSVGDimensions el)) in
  let! dimensions := settle (checkEvalError r) in
  let! r := page_evaluate 2 (fun el => setSVGDimensions el dimensions) in
  let! dimensions := settle (checkEvalError r) in
  page_property_viewportSize dimensions.

Definition errMsg (srcPath status : string) : string :=
  "File " +:+ srcPath +:+ " has been opened with status " +:+ status.

(** The chain between the creation of the page and its two final
    handlers, lines 155-180. *)
Definition render (srcPath pageContent : string) (size : option Sizes)
    : Promise string :=
  let! status := page_open pageContent in
  (if decide (status = "success") then resolveDimensions size
   else reject (Error (errMsg srcPath status))) >>>
  let! imageBase64 := page_renderBase64 in
  resolve (base64_decode imageBase64).

(** [convert], lines 147-191 *)
Definition convert (srcPath : string) (size : option Sizes)
    : Promise string :=
  let! (page, pageContent) :=
    all2 (readFile_first w) createPage (fileToBase64 srcPath) in
  then2 (render srcPath pageContent size)
    (fun imageData => closePage >>> resolve imageData)
    (fun error => closePage >>> reject error).

(** [saveBuffer], lines 127-139: after [reject] the call of [resolve] has
    no effect. *)
Definition saveBuffer (dstPath buffer : string) : Promise string :=
  record WriteFile >>>
  fail_if (writeFile_reply w) >>>
  resolve dstPath.

(** The worker closure of [convertMany], lines 99-100. *)
Definition worker (srcPath dstPath : string) (size : option Sizes)
    : Promise string :=
  let! buffer := convert srcPath size in
  saveBuffer dstPath buffer.

End Job.

(** ** The pool of workers: [convertMany]

    The closures of [convertMany] share [restWorkers], [results], [errors]
    and the two functions that settle the returned promise.  Two kinds of
    event move the pool: the promise of a started worker settles (its
    outcome is pushed and the reaction [processNext] is queued), and a
    queued reaction runs. *)

Inductive settlement :=
| Resolved (values : list string)
| Rejected (reasons : list error).

Record Pool := {
  restWorkers : list string;  (* the closures not started, by source path *)
  running : list string;      (* started workers whose promise is pending *)
  reactions : nat;            (* queued calls of [processNext] *)
  results : list string;
  errors : list error;
  batch : option settlement   (* the promise returned by [convertMany] *)
}.

Inductive event :=
| Settle (srcPath : string)
| ProcessNext.

(** [Object.keys(fileMap)] *)
Definition Object_keys (fileMap : gmap string string) : list string :=
  (map_to_list fileMap).*1.

(** [array.splice(0, deleteCount)]: the removed prefix and what remains;
    a negative count removes nothing. *)
Definition splice0 {A} (deleteCount : Z) (array : list A)
    : list A * list A :=
  (take (Z.to_nat deleteCount) array, drop (Z.to_nat deleteCount) array).

(** [array.pop()]: what remains and the last element. *)
Definition pop {A} (array : list A) : option (list A * A) :=
  match reverse array with
  | [] => None
  | x :: r => Some (reverse r, x)
  end.

Fixpoint remove_one (x : string) (l : list string) : list string :=
  match l with
  | [] => []
  | y :: l' => if decide (x = y) then l' else y :: remove_one x l'
  end.

(** [resolveAll] and [rejectAll]: a settled promise ignores later calls. *)
Definition settle_batch (v : settlement) (s : Pool) : Pool :=
  match batch s with
  | Some _ => s
  | None =>
      {| restWorkers := restWorkers s; running := running s;
         reactions := reactions s; results := results s;
         errors := errors s; batch := Some v |}
  end.

Section Pool.

Variable fileMap : gmap string string.
Variable pages : Z.

(** How the promise of the worker of a source path settles. *)
Variable outcome : string -> error + string.

(** [startWorker(worker)], lines 102-108, up to the call of the worker. *)
Definition startWorker (srcPath : string) (s : Pool) : Pool :=
  {| restWorkers := restWorkers s; running := running s ++ [srcPath];
     reactions := reactions s; results := results s; errors := errors s;
     batch := batch s |}.

(** The two handlers of [startWorker], run when the worker settles. *)
Definition settled (srcPath : string) (s : Pool) : Pool :=
  {| restWorkers := restWorkers s;
     running := remove_one srcPath (running s);
     reactions := S (reactions s);
     results := match outcome srcPath with
                | inr r => results s ++ [r]
                | inl _ => results s
                end;
     errors := match outcome srcPath with
               | inr _ => errors s
               | inl e => errors s ++ [e]
               end;
     batch := batch s |}.

(** [processNext], lines 109-120 *)
Definition processNext (s : Pool) : Pool :=
  match pop (restWorkers s) with
  | Some (rest, nextWorker) =>
      startWorker nextWorker
        {| restWorkers := rest; running := running s;
           reactions := reactions s; results := results s;
           errors := errors s; batch := batch s |}
  | None =>
      if (length (Object_keys fileMap)
            <=? length (errors s) + length (results s))%nat
      then
        if (0 <? length (errors s))%nat
        then settle_batch (Rejected (errors s)) s
        else settle_batch (Resolved (results s)) s
      else s
  end.

(** The executor of the promise, lines 95-123. *)
Definition convertMany : Pool :=
  let (started, rest) := splice0 pages (Object_keys fileMap) in
  foldl (fun s worker => startWorker worker s)
    {| restWorkers := rest; running := []; reactions := 0;
       results := []; errors := []; batch := None |}
    started.

Definition step (s : Pool) (ev : event) : option Pool :=
  match ev with
  | Settle srcPath =>
      if decide (srcPath ∈ running s) then Some (settled srcPath s)
      else None
  | ProcessNext =>
      match reactions s with
      | O => None
      | S n =>
          Some (processNext
                  {| restWorkers := restWorkers s; running := running s;
                     reactions := n; results := results s;
                     errors := errors s; batch := batch s |})
      end
  end.

Fixpoint exec (s : Pool) (evs : list event) : option Pool :=
  match evs with
  | [] => Some s
  | ev :: evs' =>
      match step s ev with
      | Some s' => exec s' evs'
      | None => None
      end
  end.

(** The source paths of the workers that settled, in order. *)
Definition settled_of (evs : list event) : list string :=
  omap (fun ev => match ev with Settle p => Some p | ProcessNext => None end)
    evs.

Definition values_of (ps : list string) : list string :=
  omap (fun p => match outcome p with inr r => Some r | inl _ => None end) ps.

Definition reasons_of (ps : list string) : list error :=
  omap (fun p => match outcome p with inl e => Some e | inr _ => None end) ps.

End Pool.

(** [PARALLEL_PAGES], line 26 *)
Definition PARALLEL_PAGES : Z := 20.

(** What a batch is made of: the pool as the executor leaves it, and how
    each of its worker closures settles. *)
Record Batch := {
  pool : Pool;
  settles : string -> error + string
}.

Section Batch.

(** What the collaborators answer to the job of each source path. *)
Variable worlds : string -> World.
Variable base64_encode : string -> string.
Variable base64_decode : string -> string.

(** The closure [() => convert(instance, srcPath, size).then(buffer =>
    saveBuffer(fileMap[srcPath], buffer))], run on a fresh page. *)
Definition job (fileMap : gmap string string) (size : option Sizes)
    (srcPath : string) : error + string :=
  (worker (worlds srcPath) base64_encode base64_decode srcPath
     (default "" (fileMap !! srcPath)) size start).2.

(** [svg2PngFiles], lines 38-59: the batch, or the failure of the engine
    to start.  Omitted arguments take their defaults. *)
Definition svg2PngFiles (create_reply : option error)
    (fileMap : gmap string string) (size : option Sizes)
    (pages : option Z) : error + Batch :=
  match create_reply with
  | Some e => inl e
  | None =>
      inr {| pool := convertMany fileMap (default PARALLEL_PAGES pages);
             settles := job fileMap (Some (default empty_sizes size)) |}
  end.

End Batch.

(** ** The directory entry point: [svg2PngDir] *)

Section Directory.

(** [path.join] and the [name] field of [path.parse]. *)
Variable path_join : string -> string -> string.
Variable path_parse_name : string -> string.

(** Lines 74-80 *)
Definition fileMap_of (srcDir dstDir : string) (files : list string)
    : gmap string string :=
  foldl
    (fun fileMap file =>
       <[path_join srcDir file :=
           path_join dstDir (path_parse_name file +:+ ".png")]> fileMap)
    ∅
    (filter (fun file => Regex.SVG_REGEX_test file = true) files).

(** [svg2PngDir], lines 68-84 *)
Definition svg2PngDir {R}
    (svg2PngFiles : gmap string string -> option Sizes -> option Z -> error + R)
    (readdir_reply : error + list string) (srcDir dstDir : string)
    (size : option Sizes) (pages : option Z) : error + R :=
  match readdir_reply with
  | inl e => inl e
  | inr files =>
      svg2PngFiles (fileMap_of srcDir dstDir files)
        (Some (default empty_sizes size))
        (Some (default PARALLEL_PAGES pages))
  end.

End Directory.

(** [x] occurs in [s]. *)
Definition contains (x s : string) : Prop :=
  exists pre post, s = pre +:+ x +:+ post.

(** A chain that never closes the page: it only appends calls other than
    [Close] to the log. *)
Definition keeps_open {A} (p : Promise A) : Prop :=
  forall st, exists l, log (p st).1 = log st ++ l /\ Close ∉ l.

(** The pages a finished job leaves open: one, when the engine handed
    over a page and the job made no call to close it. *)
Definition left_open (w : World) (st : State) : nat :=
  match createPage_reply w with
  | Some _ => 0
  | None => if decide (CreatePage ∈ log st /\ Close ∉ log st) then 1 else 0
  end.

(** The state in which the worker closure of a source path leaves its
    page and its log. *)
Definition job_state (worlds : string -> World)
    (base64_encode base64_decode : string -> string)
    (fileMap : gmap string string) (size : option Sizes)
    (srcPath : string) : State :=
  (worker (worlds srcPath) base64_encode base64_decode srcPath
     (default "" (fileMap !! srcPath)) size start).1.

(** The render contexts still open after the jobs of [settled] have
    settled: the pages these jobs created and did not close. *)
Definition open_contexts (worlds : string -> World)
    (base64_encode base64_decode : string -> string)
    (fileMap : gmap string string) (size : option Sizes)
    (settled : list string) : nat :=
  sum_list
    ((fun srcPath =>
        left_open (worlds srcPath)
          (job_state worlds base64_encode base64_decode fileMap size
             srcPath)) <$> settled).

(** A chain all of whose calls satisfy [allowed]. *)
Definition calls_only {A} (allowed : call -> Prop) (p : Promise A) : Prop :=
  forall st, exists l, log (p st).1 = log st ++ l /\ Forall allowed l.

(** Every code unit of [s] is white space. *)
Definition all_spaces (s : string) : Prop :=
  Forall (fun c => Regex.is_space c = true) (list_ascii_of_string s).

(** * Properties *)

(** ** The functions evaluated inside the page *)

Lemma declared_value (el : Element) (name : string) :
  let v := not_percent_and
             (Regex.percent_test (or_empty (getAttribute el name)))
             (parseFloat_arg (getAttribute el name)) in
  (truthy v = true -> declared el name = number_of v)
  /\ (truthy v = false -> declared el name = None).
Proof.
  unfold declared, or_empty, parseFloat_arg.
  destruct (getAttribute el name) as [s|]; simpl.
  - destruct (Regex.percent_test s); simpl.
    + split; [discriminate | reflexivity].
    + destruct (ToBoolean (parseFloat s)); split;
        (reflexivity || discriminate).
  - rewrite parseFloat_null, ToBoolean_NaN. split; [discriminate | reflexivity].
Qed.

Lemma declared_percent (el : Element) (name s : string) :
  getAttribute el name = Some (s +:+ "%") -> declared el name = None.
Proof.
  intros Hattr. unfold declared. now rewrite Hattr, Regex.percent_test_ends.
Qed.

Lemma getSVGDimensions_both_declared (el : Element) (w h : number) :
  declared el "width" = Some w -> declared el "height" = Some h ->
  getSVGDimensions el = SizesObj {| width := Some w; height := Some h |}.
Proof.
  pose proof (declared_value el "width") as [Hw1 Hw0].
  pose proof (declared_value el "height") as [Hh1 Hh0].
  intros Hw Hh. unfold getSVGDimensions.
  destruct (truthy _) eqn:Ew in Hw1, Hw0 |- *.
  2:{ rewrite Hw0 in Hw by reflexivity. discriminate. }
  destruct (truthy _) eqn:Eh in Hh1, Hh0 |- *.
  2:{ rewrite Hh0 in Hh by reflexivity. discriminate. }
  simpl. rewrite <- Hw1, <- Hh1 by reflexivity. now rewrite Hw, Hh.
Qed.

(** C5.  On an [svg] root [getSVGDimensions] returns what the intrinsic
    size query is documented to return: the declared width and height when
    both are present and not percentages; otherwise the declared width
    with the height derived from the view box when the view box has a
    height; otherwise the declared height with the width derived from the
    view box when the view box has a width; otherwise [null].  The first
    case needs no view box at all, and a declared value that ends in a
    percent sign is absent in every case.  Present means: the attribute
    reads as a number that is neither [NaN] nor zero. *)
Theorem getSVGDimensions_spec (el : Element) :
  (forall w h,
      declared el "width" = Some w -> declared el "height" = Some h ->
      getSVGDimensions el = SizesObj {| width := Some w; height := Some h |})
  /\ (forall viewBoxWidth viewBoxHeight,
        viewBox el = Some (viewBoxWidth, viewBoxHeight) ->
        getSVGDimensions el
        = getIntrinsicSize_spec el viewBoxWidth viewBoxHeight)
  /\ (forall name s,
        getAttribute el name = Some (s +:+ "%") -> declared el name = None).
Proof.
  pose proof (declared_value el "width") as [Hw1 Hw0].
  pose proof (declared_value el "height") as [Hh1 Hh0].
  split; [|split].
  - apply getSVGDimensions_both_declared.
  - intros vbw vbh Hvb. unfold getSVGDimensions, getIntrinsicSize_spec.
    rewrite Hvb.
    destruct (truthy _) eqn:Ew in Hw1, Hw0 |- *;
      destruct (truthy _) eqn:Eh in Hh1, Hh0 |- *; simpl.
    + rewrite Hw1, Hh1 by reflexivity.
      destruct (not_percent_and _ _) as [|w]; [discriminate|].
      destruct (not_percent_and _ _) as [|h]; [discriminate|]. reflexivity.
    + rewrite Hw1, Hh0 by reflexivity.
      destruct (not_percent_and _ _) as [|w]; [discriminate|]. simpl.
      destruct (ToBoolean vbh); reflexivity.
    + rewrite Hw0, Hh1 by reflexivity.
      destruct (not_percent_and _ _) as [|h] in Eh |- *; [discriminate|].
      simpl. destruct (ToBoolean vbw); reflexivity.
    + rewrite Hw0, Hh0 by reflexivity. reflexivity.
  - intros name s. apply declared_percent.
Qed.

Lemma apply_dimension_same (name : string) (d : option number) (el : Element) :
  getAttribute (apply_dimension name d el) name
  = if provided d then px <$> d else None.
Proof.
  unfold apply_dimension, provided, getAttribute.
  destruct d as [n|]; [destruct (ToBoolean n)|]; simpl.
  - apply lookup_insert_eq.
  - apply lookup_delete_eq.
  - apply lookup_delete_eq.
Qed.

Lemma apply_dimension_other (name other : string) (d : option number)
    (el : Element) :
  name <> other ->
  getAttribute (apply_dimension name d el) other = getAttribute el other.
Proof.
  intros Hne. unfold apply_dimension, getAttribute.
  destruct d as [n|]; [destruct (ToBoolean n)|]; simpl.
  - now apply lookup_insert_ne.
  - now apply lookup_delete_ne.
  - now apply lookup_delete_ne.
Qed.

Lemma apply_dimension_viewBox (name : string) (d : option number)
    (el : Element) :
  viewBox (apply_dimension name d el) = viewBox el.
Proof.
  unfold apply_dimension.
  destruct d as [n|]; [destruct (ToBoolean n)|]; reflexivity.
Qed.

(** A dimension that is not provided is removed, whatever its value. *)
Lemma apply_dimension_not_provided (name : string) (d : option number)
    (el : Element) :
  provided d = false -> apply_dimension name d el = removeAttribute el name.
Proof.
  unfold apply_dimension, provided.
  destruct d as [n|]; [|reflexivity]. now intros ->.
Qed.

(** C6.  [setSVGDimensions] always returns the sizes object it was given.
    With neither dimension provided the root element is left as it is.
    With at least one provided, each provided dimension becomes the
    attribute of its name, in pixels, the attribute of a dimension that is
    not provided is removed, and nothing else of the element changes.
    When the body raises (the argument is [null]) the result is the error
    marker and the element is left as it is.  Provided means truthy: a
    number that is neither [NaN] nor zero. *)
Theorem setSVGDimensions_spec (el : Element) (s : Sizes) :
  (setSVGDimensions el (SizesObj s)).2 = SizesObj s
  /\ (provided (width s) = false -> provided (height s) = false ->
      (setSVGDimensions el (SizesObj s)).1 = el)
  /\ (provided (width s) = true \/ provided (height s) = true ->
      let el' := (setSVGDimensions el (SizesObj s)).1 in
      getAttribute el' "width"
      = (if provided (width s) then px <$> width s else None)
      /\ getAttribute el' "height"
         = (if provided (height s) then px <$> height s else None)
      /\ (forall name, name <> "width" -> name <> "height" ->
            getAttribute el' name = getAttribute el name)
      /\ viewBox el' = viewBox el)
  /\ setSVGDimensions el Null = (el, ErrorObj TypeError).
Proof.
  unfold setSVGDimensions. split; [|split; [|split]].
  - destruct (negb _ && negb _); reflexivity.
  - intros -> ->. reflexivity.
  - intros Hsome.
    assert (negb (provided (width s)) && negb (provided (height s)) = false)
      as -> by (destruct Hsome as [-> | ->]; simpl;
                [reflexivity | apply andb_false_r]).
    cbn [fst]. repeat split.
    + rewrite apply_dimension_other by discriminate.
      apply apply_dimension_same.
    + apply apply_dimension_same.
    + intros name Hw Hh.
      rewrite !apply_dimension_other by congruence. reflexivity.
    + now rewrite !apply_dimension_viewBox.
  - reflexivity.
Qed.

Lemma getSVGDimensions_falsy_width (el : Element) (s : string) :
  ToBoolean (parseFloat s) = false ->
  getSVGDimensions (setAttribute el "width" s)
  = getSVGDimensions (removeAttribute el "width").
Proof.
  intros Hs. unfold getSVGDimensions, getAttribute, setAttribute,
    removeAttribute, or_empty, parseFloat_arg. cbn [attributes viewBox].
  rewrite lookup_insert_eq, lookup_delete_eq.
  rewrite lookup_insert_ne, lookup_delete_ne by discriminate.
  cbn [from_option id]. rewrite parseFloat_null.
  assert (truthy (not_percent_and (Regex.percent_test s) (parseFloat s))
          = false) as ->
    by (destruct (Regex.percent_test s); [reflexivity | exact Hs]).
  change (Regex.percent_test "") with false.
  cbn [not_percent_and truthy]. now rewrite ToBoolean_NaN.
Qed.

Lemma getSVGDimensions_falsy_height (el : Element) (s : string) :
  ToBoolean (parseFloat s) = false ->
  getSVGDimensions (setAttribute el "height" s)
  = getSVGDimensions (removeAttribute el "height").
Proof.
  intros Hs. unfold getSVGDimensions, getAttribute, setAttribute,
    removeAttribute, or_empty, parseFloat_arg. cbn [attributes viewBox].
  rewrite lookup_insert_eq, lookup_delete_eq.
  rewrite lookup_insert_ne, lookup_delete_ne by discriminate.
  cbn [from_option id]. rewrite parseFloat_null.
  assert (truthy (not_percent_and (Regex.percent_test s) (parseFloat s))
          = false) as ->
    by (destruct (Regex.percent_test s); [reflexivity | exact Hs]).
  change (Regex.percent_test "") with false.
  cbn [not_percent_and truthy]. rewrite ToBoolean_NaN.
  now rewrite !andb_false_r.
Qed.

(** C10.  A requested dimension of value zero is handled as an omitted
    one.  [setSVGDimensions] leaves the element in the state it would
    leave it in had the dimension been omitted: it does not count the
    zero as provided, writes no attribute for it, and removes the
    attribute when the other dimension is provided.  [getSVGDimensions]
    returns for an attribute that parses to zero what it returns when
    the attribute is missing. *)
Theorem zero_dimension_is_omitted (el : Element) :
  provided (Some zero) = false
  /\ (forall h,
        (setSVGDimensions el
           (SizesObj {| width := Some zero; height := h |})).1
        = (setSVGDimensions el
             (SizesObj {| width := None; height := h |})).1)
  /\ (forall w,
        (setSVGDimensions el
           (SizesObj {| width := w; height := Some zero |})).1
        = (setSVGDimensions el
             (SizesObj {| width := w; height := None |})).1)
  /\ (forall h, provided h = true ->
        getAttribute
          (setSVGDimensions el
             (SizesObj {| width := Some zero; height := h |})).1 "width"
        = None)
  /\ (forall w, provided w = true ->
        getAttribute
          (setSVGDimensions el
             (SizesObj {| width := w; height := Some zero |})).1 "height"
        = None)
  /\ (forall s, parseFloat s = zero ->
        getSVGDimensions (setAttribute el "width" s)
        = getSVGDimensions (removeAttribute el "width"))
  /\ (forall s, parseFloat s = zero ->
        getSVGDimensions (setAttribute el "height" s)
        = getSVGDimensions (removeAttribute el "height")).
Proof.
  assert (Hz : provided (Some zero) = false) by apply ToBoolean_zero.
  repeat split.
  - exact Hz.
  - intros h. unfold setSVGDimensions. cbn [width height]. rewrite Hz.
    cbn [provided negb andb].
    destruct (negb (provided h)); [reflexivity|]. cbn [fst].
    now rewrite (apply_dimension_not_provided "width" (Some zero)).
  - intros w. unfold setSVGDimensions. cbn [width height]. rewrite Hz.
    cbn [provided negb]. rewrite !andb_true_r.
    destruct (negb (provided w)); [reflexivity|]. cbn [fst].
    now rewrite (apply_dimension_not_provided "height" (Some zero)).
  - intros h Hh. unfold setSVGDimensions. cbn [width height].
    rewrite Hz, Hh. cbn [negb andb fst].
    rewrite apply_dimension_other by discriminate.
    rewrite apply_dimension_same. now rewrite Hz.
  - intros w Hw. unfold setSVGDimensions. cbn [width height].
    rewrite Hz, Hw. cbn [negb andb fst].
    rewrite apply_dimension_same. now rewrite Hz.
  - intros s Hs. apply getSVGDimensions_falsy_width.
    rewrite Hs. apply ToBoolean_zero.
  - intros s Hs. apply getSVGDimensions_falsy_height.
    rewrite Hs. apply ToBoolean_zero.
Qed.

(** ** One job *)

Ltac promise :=
  unfold then1, then2, all2, record, settle, fail_if, resolve, reject;
  cbn [fst snd root viewportSize log].

Lemma keeps_open_then2 {A B} (p : Promise A) (f : A -> Promise B)
    (g : error -> Promise B) :
  keeps_open p -> (forall a, keeps_open (f a)) ->
  (forall e, keeps_open (g e)) -> keeps_open (then2 p f g).
Proof.
  intros Hp Hf Hg st. unfold then2.
  destruct (Hp st) as (l1 & E1 & N1).
  destruct (p st) as [st1 [e|a]]; cbn [fst] in E1.
  - destruct (Hg e st1) as (l2 & E2 & N2). exists (l1 ++ l2).
    rewrite E2, E1, app_assoc. split; [reflexivity|].
    rewrite elem_of_app. tauto.
  - destruct (Hf a st1) as (l2 & E2 & N2). exists (l1 ++ l2).
    rewrite E2, E1, app_assoc. split; [reflexivity|].
    rewrite elem_of_app. tauto.
Qed.

Lemma keeps_open_reject {A} (e : error) : keeps_open (@reject A e).
Proof.
  intros st. exists []. rewrite app_nil_r. split; [reflexivity|].
  apply not_elem_of_nil.
Qed.

Lemma keeps_open_then1 {A B} (p : Promise A) (f : A -> Promise B) :
  keeps_open p -> (forall a, keeps_open (f a)) -> keeps_open (then1 p f).
Proof.
  intros Hp Hf. apply keeps_open_then2; auto using @keeps_open_reject.
Qed.

Lemma keeps_open_silent {A} (p : Promise A) :
  (forall st, log (p st).1 = log st) -> keeps_open p.
Proof.
  intros Hp st. exists []. rewrite app_nil_r, Hp. split; [reflexivity|].
  apply not_elem_of_nil.
Qed.

Lemma keeps_open_record (c : call) : c <> Close -> keeps_open (record c).
Proof.
  intros Hc st. exists [c]. split; [reflexivity|].
  rewrite list_elem_of_singleton. congruence.
Qed.

Lemma keeps_open_settle {A} (reply : error + A) : keeps_open (settle reply).
Proof. now apply keeps_open_silent. Qed.

Lemma keeps_open_fail_if (reply : option error) : keeps_open (fail_if reply).
Proof. now apply keeps_open_silent. Qed.

Lemma keeps_open_resolve {A} (a : A) : keeps_open (resolve a).
Proof. now apply keeps_open_silent. Qed.

Lemma keeps_open_page_open (w : World) (content : string) :
  keeps_open (page_open w content).
Proof.
  unfold page_open. apply keeps_open_then1.
  - now apply keeps_open_record.
  - intros _. apply keeps_open_then1; [apply keeps_open_settle|].
    intros status. now apply keeps_open_silent.
Qed.

Lemma keeps_open_page_evaluate (w : World) (k : nat)
    (f : Element -> Element * result) :
  keeps_open (page_evaluate w k f).
Proof.
  unfold page_evaluate. apply keeps_open_then1.
  - now apply keeps_open_record.
  - intros _. apply keeps_open_then1; [apply keeps_open_fail_if|].
    intros _. apply keeps_open_silent. intros st.
    now destruct (f (root st)).
Qed.

Lemma keeps_open_page_property_viewportSize (w : World) (d : result) :
  keeps_open (page_property_viewportSize w d).
Proof.
  unfold page_property_viewportSize. apply keeps_open_then1.
  - now apply keeps_open_record.
  - intros _. apply keeps_open_then1; [apply keeps_open_fail_if|].
    intros _. now apply keeps_open_silent.
Qed.

Lemma keeps_open_page_renderBase64 (w : World) :
  keeps_open (page_renderBase64 w).
Proof.
  unfold page_renderBase64. apply keeps_open_then1.
  - now apply keeps_open_record.
  - intros _. apply keeps_open_settle.
Qed.

Lemma keeps_open_resolveDimensions (w : World) (size : option Sizes) :
  keeps_open (resolveDimensions w size).
Proof.
  unfold resolveDimensions.
  repeat (first
    [ apply keeps_open_page_evaluate
    | apply keeps_open_page_property_viewportSize
    | apply keeps_open_settle
    | apply keeps_open_then1
    | intros ? ]).
Qed.

Lemma keeps_open_render (w : World) (decode : string -> string)
    (srcPath pageContent : string) (size : option Sizes) :
  keeps_open (render w decode srcPath pageContent size).
Proof.
  unfold render. apply keeps_open_then1; [apply keeps_open_page_open|].
  intros status. apply keeps_open_then1.
  - destruct (decide (status = "success")).
    + apply keeps_open_resolveDimensions.
    + apply keeps_open_reject.
  - intros _. apply keeps_open_then1; [apply keeps_open_page_renderBase64|].
    intros img. apply keeps_open_resolve.
Qed.

(** X2.  With the page created and the source file read, [convert]
    closes the page once, as its last call, however the chain in between
    settles. *)
Lemma convert_closes_page (w : World) (encode decode : string -> string)
    (srcPath : string) (size : option Sizes) (data : string) :
  createPage_reply w = None -> readFile_reply w = inr data ->
  exists l,
    log (convert w encode decode srcPath size start).1
    = [CreatePage; ReadFile] ++ l ++ [Close]
    /\ Close ∉ l.
Proof.
  intros Hcreate Hread.
  unfold convert, createPage, fileToBase64, closePage. promise.
  rewrite Hcreate, Hread. cbn [start log app].
  match goal with
  | |- context [render w decode srcPath ?c size ?st] =>
      destruct (keeps_open_render w decode srcPath c size st)
        as (l & El & Nl);
      destruct (render w decode srcPath c size st) as [st1 [e|img]]
  end; cbn [fst log] in *; exists l; rewrite El; split;
    solve [reflexivity | assumption].
Qed.

(** X3.  A worker is fulfilled only with its destination path, and only
    after the file was written. *)
Lemma worker_fulfilled_wrote (w : World) (encode decode : string -> string)
    (srcPath dstPath : string) (size : option Sizes) (st : State)
    (value : string) :
  (worker w encode decode srcPath dstPath size st).2 = inr value ->
  value = dstPath
  /\ WriteFile ∈ log (worker w encode decode srcPath dstPath size st).1.
Proof.
  unfold worker, saveBuffer. promise.
  destruct (convert w encode decode srcPath size st) as [st1 [e|buffer]];
    [discriminate|].
  destruct (writeFile_reply w); cbn [fst snd log]; [discriminate|].
  intros [= <-]. split; [reflexivity|].
  rewrite elem_of_app, list_elem_of_singleton. auto.
Qed.

(** C4.  When the engine hands over a page and the read of the source
    file fails, [convert] rejects with the error of the read after the two
    calls that create the page and read the file: the handlers that close
    the page are attached to a chain that is never entered, so the page
    that was created is not closed. *)
Theorem convert_read_failure_leaves_page_open (w : World)
    (encode decode : string -> string) (srcPath : string)
    (size : option Sizes) (e : error) :
  createPage_reply w = None -> readFile_reply w = inl e ->
  (convert w encode decode srcPath size start).2 = inl e
  /\ log (convert w encode decode srcPath size start).1
     = [CreatePage; ReadFile]
  /\ Close ∉ log (convert w encode decode srcPath size start).1.
Proof.
  intros Hcreate Hread.
  unfold convert, createPage, fileToBase64. promise.
  rewrite Hcreate, Hread. cbn [start log app fst snd].
  repeat split. rewrite !not_elem_of_cons. repeat split; try discriminate.
  apply not_elem_of_nil.
Qed.

(** C7.  For every page, whatever the document it shows, and every
    request that provides both a width and a height, the chain
    [setSVGDimensions(size)], [getSVGDimensions()],
    [setSVGDimensions(dimensions)] with [checkEvalError] after each step
    is fulfilled and sets the viewport to exactly the requested sizes,
    as long as the engine answers every call. *)
Theorem resolveDimensions_requested_viewport (w : World) (st : State)
    (wd ht : number) :
  ToBoolean wd = true -> ToBoolean ht = true ->
  (forall k, evaluate_reply w k = None) -> property_reply w = None ->
  (resolveDimensions w
     (Some {| width := Some wd; height := Some ht |}) st).2 = inr tt
  /\ viewportSize
       (resolveDimensions w
          (Some {| width := Some wd; height := Some ht |}) st).1
     = Some (SizesObj {| width := Some wd; height := Some ht |}).
Proof.
  intros Hwd Hht Heval Hprop.
  set (size := {| width := Some wd; height := Some ht |}).
  set (el := apply_dimension "height" (Some ht)
               (apply_dimension "width" (Some wd) (root st))).
  assert (Hw : declared el "width" = Some wd).
  { unfold declared, el. rewrite apply_dimension_other by discriminate.
    rewrite apply_dimension_same. cbn [provided]. rewrite Hwd.
    cbn [fmap option_fmap option_map]. unfold px.
    now rewrite Regex.percent_test_px, parseFloat_px, Hwd. }
  assert (Hh : declared el "height" = Some ht).
  { unfold declared, el. rewrite apply_dimension_same. cbn [provided].
    rewrite Hht. cbn [fmap option_fmap option_map]. unfold px.
    now rewrite Regex.percent_test_px, parseFloat_px, Hht. }
  assert (Hset : forall x,
             setSVGDimensions x (SizesObj size)
             = (apply_dimension "height" (Some ht)
                  (apply_dimension "width" (Some wd) x), SizesObj size)).
  { intros x. unfold setSVGDimensions. cbn [size width height provided].
    now rewrite Hwd, Hht. }
  unfold resolveDimensions, page_evaluate, page_property_viewportSize.
  promise. rewrite !Heval, Hprop. cbn [from_option id].
  rewrite Hset. cbn [root log viewportSize checkEvalError].
  fold el. rewrite (getSVGDimensions_both_declared el wd ht Hw Hh).
  cbn [checkEvalError root]. fold size. rewrite Hset.
  cbn [checkEvalError viewportSize fst snd]. split; reflexivity.
Qed.

Lemma contains_errMsg_srcPath (srcPath status : string) :
  contains srcPath (errMsg srcPath status).
Proof.
  exists "File ", (" has been opened with status " +:+ status). reflexivity.
Qed.

Lemma append_assoc (a b c : string) : (a +:+ b) +:+ c = a +:+ (b +:+ c).
Proof.
  induction a as [|x a IH]; [reflexivity|].
  change (String x ((a +:+ b) +:+ c) = String x (a +:+ (b +:+ c))).
  now rewrite IH.
Qed.

Lemma append_empty_r (a : string) : a +:+ "" = a.
Proof.
  induction a as [|x a IH]; [reflexivity|].
  change (String x (a +:+ "") = String x a). now rewrite IH.
Qed.

Lemma contains_errMsg_status (srcPath status : string) :
  contains status (errMsg srcPath status).
Proof.
  exists ("File " +:+ srcPath +:+ " has been opened with status "), "".
  unfold errMsg. now rewrite append_empty_r, !append_assoc.
Qed.

(** C8.  When [page.open] reports a status other than ["success"], the
    worker of the job is rejected with an [Error] whose message contains
    the source path and the status; after the load the only call is the
    one that closes the page: nothing is evaluated, no viewport is set,
    nothing is rendered and nothing is written. *)
Theorem worker_load_failure (w : World) (encode decode : string -> string)
    (srcPath dstPath : string) (size : option Sizes)
    (data status : string) :
  createPage_reply w = None -> readFile_reply w = inr data ->
  open_reply w = inr status -> status <> "success" ->
  let run := worker w encode decode srcPath dstPath size start in
  (exists message,
      run.2 = inl (Error message)
      /\ contains srcPath message /\ contains status message)
  /\ log run.1 = [CreatePage; ReadFile; Open; Close]
  /\ (forall c, c ∈ [Evaluate; SetViewport; RenderBase64; WriteFile] ->
        c ∉ log run.1).
Proof.
  intros Hcreate Hread Hopen Hstatus run.
  assert (Hrun : run = ({| root := document w; viewportSize := None;
                           log := [CreatePage; ReadFile; Open; Close] |},
                        inl (Error (errMsg srcPath status)))).
  { unfold run, worker, convert, render, createPage, fileToBase64,
      page_open, closePage. promise.
    rewrite Hcreate, Hread, Hopen. cbn [start log app viewportSize].
    destruct (decide (status = "success")) as [Heq|_]; [contradiction|].
    reflexivity. }
  rewrite Hrun. cbn [fst snd log]. split; [|split].
  - exists (errMsg srcPath status).
    auto using contains_errMsg_srcPath, contains_errMsg_status.
  - reflexivity.
  - intros c Hc Hin.
    rewrite !elem_of_cons in Hc. rewrite !elem_of_cons in Hin.
    destruct Hc as [-> | [-> | [-> | [-> | Hc]]]];
      [| | | |now apply elem_of_nil in Hc];
      destruct Hin as [? | [? | [? | [? | Hin]]]];
      try discriminate; now apply elem_of_nil in Hin.
Qed.

(** ** More on the functions evaluated inside the page *)

Lemma spaces_to_end_all_spaces (s : string) :
  Regex.spaces_to_end s = true <-> all_spaces s.
Proof.
  unfold all_spaces. induction s as [|c s IH]; cbn [Regex.spaces_to_end
    list_ascii_of_string].
  - split; [constructor | reflexivity].
  - rewrite andb_true_iff, IH, Forall_cons. reflexivity.
Qed.

(** X10.  The percentage test accepts exactly the texts that consist of
    anything, a percent sign, and then white space only up to the end. *)
Theorem percent_test_spec (s : string) :
  Regex.percent_test s = true
  <-> exists before after,
        s = before +:+ "%" +:+ after /\ all_spaces after.
Proof.
  induction s as [|c s IH].
  - split; [discriminate|]. intros (before & after & Hs & _).
    destruct before; discriminate.
  - cbn [Regex.percent_test].
    rewrite orb_true_iff, andb_true_iff, Ascii.eqb_eq,
      spaces_to_end_all_spaces, IH.
    split.
    + intros [[-> Hsp] | (before & after & -> & Hsp)].
      * exists EmptyString, s. auto.
      * exists (String c before), after. auto.
    + intros (before & after & Hs & Hsp). destruct before as [|c' before].
      * left. cbn in Hs. injection Hs as -> ->. auto.
      * right. injection Hs as -> ->. eauto.
Qed.

(** X11.  On a root element that has no [viewBox] property the size
    query can only answer from the two attributes: unless both are
    declared, reading the view box raises and the result is the error
    marker. *)
Theorem getSVGDimensions_without_viewBox (el : Element) :
  viewBox el = None ->
  declared el "width" = None \/ declared el "height" = None ->
  getSVGDimensions el = ErrorObj TypeError.
Proof.
  intros Hvb Hmissing.
  pose proof (declared_value el "width") as [Hw1 _].
  pose proof (declared_value el "height") as [Hh1 _].
  unfold getSVGDimensions. rewrite Hvb.
  destruct (truthy _) eqn:Ew in Hw1 |- *; [|reflexivity].
  destruct (truthy _) eqn:Eh in Hh1 |- *; [|reflexivity].
  exfalso. specialize (Hw1 eq_refl). specialize (Hh1 eq_refl).
  destruct (not_percent_and _ _) as [|w] in Ew, Hw1; [discriminate|].
  destruct (not_percent_and _ _) as [|h] in Eh, Hh1; [discriminate|].
  destruct Hmissing as [Hm | Hm]; rewrite Hm in *; discriminate.
Qed.

Lemma Element_ext (a b : Element) :
  (forall name, getAttribute a name = getAttribute b name) ->
  viewBox a = viewBox b -> a = b.
Proof.
  destruct a as [ma va], b as [mb vb]. unfold getAttribute.
  cbn [attributes viewBox]. intros Hattr ->. f_equal. now apply map_eq.
Qed.

Lemma apply_dimension_lookup (name other : string) (d : option number)
    (el : Element) :
  getAttribute (apply_dimension name d el) other
  = if decide (name = other) then (if provided d then px <$> d else None)
    else getAttribute el other.
Proof.
  destruct (decide (name = other)) as [<-|Hne].
  - apply apply_dimension_same.
  - now apply apply_dimension_other.
Qed.

(** X12.  [setSVGDimensions] is idempotent: applied a second time with
    the same argument it changes nothing and returns the same result. *)
Theorem setSVGDimensions_idempotent (el : Element) (sizes : result) :
  setSVGDimensions (setSVGDimensions el sizes).1 sizes
  = setSVGDimensions el sizes.
Proof.
  destruct sizes as [|s|e]; [reflexivity| |reflexivity].
  unfold setSVGDimensions.
  destruct (negb (provided (width s)) && negb (provided (height s)));
    [reflexivity|].
  cbn [fst]. f_equal. apply Element_ext.
  - intros name. rewrite !apply_dimension_lookup.
    repeat case_decide; reflexivity.
  - now rewrite !apply_dimension_viewBox.
Qed.

(** ** More on one job *)

Lemma setSVGDimensions_sizes (el : Element) (s : Sizes) :
  setSVGDimensions el (SizesObj s)
  = ((setSVGDimensions el (SizesObj s)).1, SizesObj s).
Proof.
  unfold setSVGDimensions.
  destruct (negb (provided (width s)) && negb (provided (height s)));
    reflexivity.
Qed.

(** The dimension chain with an engine that answers every evaluation:
    what it does is decided by what [getSVGDimensions] returns after the
    first [setSVGDimensions]. *)
Lemma resolveDimensions_run (w : World) (st : State) (size : option Sizes) :
  (forall k, evaluate_reply w k = None) ->
  let el1 :=
    (setSVGDimensions (root st) (SizesObj (default empty_sizes size))).1 in
  resolveDimensions w size st
  = match getSVGDimensions el1 with
    | ErrorObj e =>
        ({| root := el1; viewportSize := viewportSize st;
            log := log st ++ [Evaluate; Evaluate] |}, inl e)
    | Null =>
        ({| root := el1; viewportSize := viewportSize st;
            log := log st ++ [Evaluate; Evaluate; Evaluate] |},
         inl TypeError)
    | SizesObj d =>
        let el2 := (setSVGDimensions el1 (SizesObj d)).1 in
        match property_reply w with
        | Some e =>
            ({| root := el2; viewportSize := viewportSize st;
                log := log st
                       ++ [Evaluate; Evaluate; Evaluate; SetViewport] |},
             inl e)
        | None =>
            ({| root := el2; viewportSize := Some (SizesObj d);
                log := log st
                       ++ [Evaluate; Evaluate; Evaluate; SetViewport] |},
             inr tt)
        end
    end.
Proof.
  intros Heval el1.
  unfold resolveDimensions, page_evaluate, page_property_viewportSize.
  promise. rewrite !Heval.
  rewrite (setSVGDimensions_sizes (root st)). fold el1.
  cbn [checkEvalError root log viewportSize].
  destruct (getSVGDimensions el1) as [|d|e];
    cbn [checkEvalError root log viewportSize].
  - cbn [setSVGDimensions checkEvalError].
    now rewrite <- !app_assoc.
  - rewrite (setSVGDimensions_sizes el1).
    cbn [checkEvalError root log viewportSize].
    destruct (property_reply w); cbn [root log viewportSize];
      now rewrite <- !app_assoc.
  - now rewrite <- !app_assoc.
Qed.

(** X13.  Without a request (no sizes object, or one that provides
    neither dimension) the viewport becomes the size the document declares:
    whatever sizes object [getSVGDimensions] returns for the loaded
    document is written back to the root element and set as viewport. *)
Theorem resolveDimensions_intrinsic (w : World) (st : State)
    (size : option Sizes) (d : Sizes) :
  (forall k, evaluate_reply w k = None) -> property_reply w = None ->
  provided (width (default empty_sizes size)) = false ->
  provided (height (default empty_sizes size)) = false ->
  getSVGDimensions (root st) = SizesObj d ->
  (resolveDimensions w size st).2 = inr tt
  /\ viewportSize (resolveDimensions w size st).1 = Some (SizesObj d)
  /\ root (resolveDimensions w size st).1
     = (setSVGDimensions (root st) (SizesObj d)).1.
Proof.
  intros Heval Hprop Hw Hh Hget.
  rewrite (resolveDimensions_run w st size Heval).
  assert (Hel : (setSVGDimensions (root st)
                   (SizesObj (default empty_sizes size))).1 = root st).
  { unfold setSVGDimensions. now rewrite Hw, Hh. }
  rewrite Hel, Hget, Hprop. cbn [fst snd root viewportSize]. auto.
Qed.

(** X14.  When the size of the document cannot be determined, that is
    when [getSVGDimensions] returns [null] after the requested sizes were
    applied, the second [setSVGDimensions] raises on the [null] and the
    chain is rejected with that [TypeError]: three evaluations are made and
    the viewport is never set. *)
Theorem resolveDimensions_undetermined (w : World) (st : State)
    (size : option Sizes) :
  (forall k, evaluate_reply w k = None) ->
  getSVGDimensions
    (setSVGDimensions (root st) (SizesObj (default empty_sizes size))).1
  = Null ->
  (resolveDimensions w size st).2 = inl TypeError
  /\ viewportSize (resolveDimensions w size st).1 = viewportSize st
  /\ log (resolveDimensions w size st).1
     = log st ++ [Evaluate; Evaluate; Evaluate].
Proof.
  intros Heval Hget. rewrite (resolveDimensions_run w st size Heval), Hget.
  cbn [fst snd viewportSize log]. auto.
Qed.

Lemma getSVGDimensions_width_only (el : Element) (wd : number)
    (h : option number) (viewBoxWidth viewBoxHeight : number) :
  ToBoolean wd = true -> provided h = false ->
  viewBox el = Some (viewBoxWidth, viewBoxHeight) ->
  getSVGDimensions
    (setSVGDimensions el (SizesObj {| width := Some wd; height := h |})).1
  = if ToBoolean viewBoxHeight
    then SizesObj {| width := Some wd;
                     height := Some (div (mul wd viewBoxHeight)
                                       viewBoxWidth) |}
    else Null.
Proof.
  intros Hwd Hh Hvb.
  set (el1 := (setSVGDimensions el
                 (SizesObj {| width := Some wd; height := h |})).1).
  assert (Hel1 : el1 = apply_dimension "height" h
                         (apply_dimension "width" (Some wd) el)).
  { unfold el1, setSVGDimensions. cbn [width height provided].
    now rewrite Hwd, Hh. }
  assert (Hw : declared el1 "width" = Some wd).
  { unfold declared. rewrite Hel1.
    rewrite apply_dimension_other by discriminate.
    rewrite apply_dimension_same. cbn [provided]. rewrite Hwd.
    cbn [fmap option_fmap option_map]. unfold px.
    now rewrite Regex.percent_test_px, parseFloat_px, Hwd. }
  assert (Hht : declared el1 "height" = None).
  { unfold declared. rewrite Hel1, apply_dimension_same. now rewrite Hh. }
  assert (Hvb1 : viewBox el1 = Some (viewBoxWidth, viewBoxHeight))
    by (rewrite Hel1, !apply_dimension_viewBox; exact Hvb).
  pose proof (declared_value el1 "width") as [Hw1 Hw0].
  pose proof (declared_value el1 "height") as [Hh1 Hh0].
  unfold getSVGDimensions. rewrite Hvb1.
  destruct (truthy _) eqn:Ew in Hw1, Hw0 |- *.
  2:{ rewrite Hw0 in Hw by reflexivity. discriminate. }
  destruct (truthy _) eqn:Eh in Hh1, Hh0 |- *.
  { rewrite Hh1 in Hht by reflexivity.
    destruct (not_percent_and _ _) in Eh, Hht; discriminate. }
  specialize (Hw1 eq_refl). rewrite Hw in Hw1.
  destruct (not_percent_and _ _) as [|x] in Hw1 |- *; [discriminate|].
  injection Hw1 as <-. cbn [andb number_of].
  destruct (ToBoolean viewBoxHeight); reflexivity.
Qed.

Lemma getSVGDimensions_height_only (el : Element) (ht : number)
    (w : option number) (viewBoxWidth viewBoxHeight : number) :
  ToBoolean ht = true -> provided w = false ->
  viewBox el = Some (viewBoxWidth, viewBoxHeight) ->
  getSVGDimensions
    (setSVGDimensions el (SizesObj {| width := w; height := Some ht |})).1
  = if ToBoolean viewBoxWidth
    then SizesObj {| width := Some (div (mul ht viewBoxWidth)
                                      viewBoxHeight);
                     height := Some ht |}
    else Null.
Proof.
  intros Hht Hw Hvb.
  set (el1 := (setSVGDimensions el
                 (SizesObj {| width := w; height := Some ht |})).1).
  assert (Hel1 : el1 = apply_dimension "height" (Some ht)
                         (apply_dimension "width" w el)).
  { unfold el1, setSVGDimensions. cbn [width height provided].
    rewrite Hw, Hht. now rewrite andb_false_r. }
  assert (Hh : declared el1 "height" = Some ht).
  { unfold declared. rewrite Hel1, apply_dimension_same. cbn [provided].
    rewrite Hht. cbn [fmap option_fmap option_map]. unfold px.
    now rewrite Regex.percent_test_px, parseFloat_px, Hht. }
  assert (Hwd : declared el1 "width" = None).
  { unfold declared. rewrite Hel1.
    rewrite apply_dimension_other by discriminate.
    rewrite apply_dimension_same. now rewrite Hw. }
  assert (Hvb1 : viewBox el1 = Some (viewBoxWidth, viewBoxHeight))
    by (rewrite Hel1, !apply_dimension_viewBox; exact Hvb).
  pose proof (declared_value el1 "width") as [Hw1 Hw0].
  pose proof (declared_value el1 "height") as [Hh1 Hh0].
  unfold getSVGDimensions. rewrite Hvb1.
  destruct (truthy _) eqn:Ew in Hw1, Hw0 |- *.
  { rewrite Hw1 in Hwd by reflexivity.
    destruct (not_percent_and _ _) in Ew, Hwd; discriminate. }
  destruct (truthy _) eqn:Eh in Hh1, Hh0 |- *.
  2:{ rewrite Hh0 in Hh by reflexivity. discriminate. }
  specialize (Hh1 eq_refl). rewrite Hh in Hh1.
  destruct (not_percent_and _ _) as [|x] in Hh1 |- *; [discriminate|].
  injection Hh1 as <-. cbn [andb number_of].
  destruct (ToBoolean viewBoxWidth); reflexivity.
Qed.

(** X15.  A request that provides only a width, on an [svg] root: the
    height attribute of the document is removed, so its declared height
    plays no part.  If the view box has a height, the viewport is the
    requested width with the height [width * viewBoxHeight / viewBoxWidth];
    if it has none, no size can be determined and the chain is rejected
    with a [TypeError], whatever the document declares. *)
Theorem resolveDimensions_width_request (w : World) (st : State)
    (wd : number) (h : option number) (viewBoxWidth viewBoxHeight : number) :
  (forall k, evaluate_reply w k = None) -> property_reply w = None ->
  ToBoolean wd = true -> provided h = false ->
  viewBox (root st) = Some (viewBoxWidth, viewBoxHeight) ->
  let run := resolveDimensions w
               (Some {| width := Some wd; height := h |}) st in
  if ToBoolean viewBoxHeight
  then run.2 = inr tt
       /\ viewportSize run.1
          = Some (SizesObj
                    {| width := Some wd;
                       height := Some (div (mul wd viewBoxHeight)
                                         viewBoxWidth) |})
  else run.2 = inl TypeError /\ viewportSize run.1 = viewportSize st.
Proof.
  intros Heval Hprop Hwd Hh Hvb run. unfold run.
  rewrite (resolveDimensions_run w st _ Heval). cbn [from_option id].
  rewrite (getSVGDimensions_width_only (root st) wd h _ _ Hwd Hh Hvb).
  destruct (ToBoolean viewBoxHeight).
  - rewrite Hprop. cbn [fst snd viewportSize]. auto.
  - cbn [fst snd viewportSize]. auto.
Qed.

(** X16.  A request that provides only a height, on an [svg] root: the
    width attribute of the document is removed.  If the view box has a
    width, the viewport is the requested height with the width
    [height * viewBoxWidth / viewBoxHeight]; if it has none the chain is
    rejected with a [TypeError]. *)
Theorem resolveDimensions_height_request (w : World) (st : State)
    (ht : number) (wd : option number)
    (viewBoxWidth viewBoxHeight : number) :
  (forall k, evaluate_reply w k = None) -> property_reply w = None ->
  ToBoolean ht = true -> provided wd = false ->
  viewBox (root st) = Some (viewBoxWidth, viewBoxHeight) ->
  let run := resolveDimensions w
               (Some {| width := wd; height := Some ht |}) st in
  if ToBoolean viewBoxWidth
  then run.2 = inr tt
       /\ viewportSize run.1
          = Some (SizesObj
                    {| width := Some (div (mul ht viewBoxWidth)
                                        viewBoxHeight);
                       height := Some ht |})
  else run.2 = inl TypeError /\ viewportSize run.1 = viewportSize st.
Proof.
  intros Heval Hprop Hht Hwd Hvb run. unfold run.
  rewrite (resolveDimensions_run w st _ Heval). cbn [from_option id].
  rewrite (getSVGDimensions_height_only (root st) ht wd _ _ Hht Hwd Hvb).
  destruct (ToBoolean viewBoxWidth).
  - rewrite Hprop. cbn [fst snd viewportSize]. auto.
  - cbn [fst snd viewportSize]. auto.
Qed.

Lemma resolveDimensions_fulfilled (w : World) (st : State)
    (size : option Sizes) :
  (resolveDimensions w size st).2 = inr tt ->
  log (resolveDimensions w size st).1
  = log st ++ [Evaluate; Evaluate; Evaluate; SetViewport]
  /\ exists d, viewportSize (resolveDimensions w size st).1
               = Some (SizesObj d).
Proof.
  unfold resolveDimensions, page_evaluate, page_property_viewportSize.
  promise.
  destruct (evaluate_reply w 0); [discriminate|].
  rewrite (setSVGDimensions_sizes (root st)).
  cbn [checkEvalError root log viewportSize].
  destruct (evaluate_reply w 1); [discriminate|].
  cbn [checkEvalError root log viewportSize].
  destruct (getSVGDimensions _) as [|d|e];
    cbn [checkEvalError root log viewportSize];
    destruct (evaluate_reply w 2); try discriminate.
  rewrite setSVGDimensions_sizes.
  cbn [checkEvalError root log viewportSize].
  destruct (property_reply w); [discriminate|].
  cbn [fst snd root log viewportSize]. intros _.
  rewrite <- !app_assoc. eauto.
Qed.

(** X17.  [convert] is fulfilled only by a complete run: the page was
    created, the file read, the page reported the status ["success"],
    three evaluations set a viewport that is a sizes object, the page was
    rendered and then closed; the value is the decoded image. *)
Theorem convert_fulfilled (w : World) (encode decode : string -> string)
    (srcPath : string) (size : option Sizes) (imageData : string) :
  (convert w encode decode srcPath size start).2 = inr imageData ->
  createPage_reply w = None
  /\ (exists data, readFile_reply w = inr data)
  /\ open_reply w = inr "success"
  /\ (exists imageBase64,
        renderBase64_reply w = inr imageBase64
        /\ imageData = decode imageBase64)
  /\ log (convert w encode decode srcPath size start).1
     = [CreatePage; ReadFile; Open; Evaluate; Evaluate; Evaluate;
        SetViewport; RenderBase64; Close]
  /\ (exists d,
        viewportSize (convert w encode decode srcPath size start).1
        = Some (SizesObj d)).
Proof.
  unfold convert, render, createPage, fileToBase64, page_open,
    page_renderBase64, closePage. promise.
  destruct (createPage_reply w) as [e|];
    destruct (readFile_reply w) as [e'|data]; cbn [start log app];
    try discriminate.
  destruct (open_reply w) as [e|status]; [discriminate|].
  cbn [root log viewportSize].
  destruct (decide (status = "success")) as [->|_]; [|discriminate].
  match goal with
  | |- context [resolveDimensions w size ?st] =>
      pose proof (resolveDimensions_fulfilled w st size) as Hdim;
      destruct (resolveDimensions w size st) as [st1 [e|[]]]
  end; [discriminate|].
  cbn [fst snd log viewportSize] in Hdim.
  destruct (Hdim eq_refl) as (Hlog & d & Hview).
  destruct (renderBase64_reply w) as [e|imageBase64]; [discriminate|].
  cbn [fst snd log viewportSize]. intros [= <-].
  rewrite Hlog. cbn [app]. repeat split; eauto.
Qed.

(** X19.  When the engine hands over no page, [convert] is rejected
    after the two calls it starts with: nothing is opened, evaluated,
    rendered or closed.  The reason is the error of the engine, unless the
    read of the file failed as well and settled first. *)
Theorem convert_without_page (w : World) (encode decode : string -> string)
    (srcPath : string) (size : option Sizes) (e : error) :
  createPage_reply w = Some e ->
  log (convert w encode decode srcPath size start).1
  = [CreatePage; ReadFile]
  /\ (convert w encode decode srcPath size start).2
     = inl match readFile_reply w with
           | inl e' => if readFile_first w then e' else e
           | inr _ => e
           end.
Proof.
  intros Hcreate.
  unfold convert, createPage, fileToBase64. promise. rewrite Hcreate.
  destruct (readFile_reply w); cbn [start log app fst snd]; auto.
Qed.

Lemma calls_only_then2 {A B} (allowed : call -> Prop) (p : Promise A)
    (f : A -> Promise B) (g : error -> Promise B) :
  calls_only allowed p -> (forall a, calls_only allowed (f a)) ->
  (forall e, calls_only allowed (g e)) -> calls_only allowed (then2 p f g).
Proof.
  intros Hp Hf Hg st. unfold then2.
  destruct (Hp st) as (l1 & E1 & N1).
  destruct (p st) as [st1 [e|a]]; cbn [fst] in E1.
  - destruct (Hg e st1) as (l2 & E2 & N2). exists (l1 ++ l2).
    rewrite E2, E1, app_assoc. split; [reflexivity|].
    now apply Forall_app_2.
  - destruct (Hf a st1) as (l2 & E2 & N2). exists (l1 ++ l2).
    rewrite E2, E1, app_assoc. split; [reflexivity|].
    now apply Forall_app_2.
Qed.

Lemma calls_only_silent {A} (allowed : call -> Prop) (p : Promise A) :
  (forall st, log (p st).1 = log st) -> calls_only allowed p.
Proof.
  intros Hp st. exists []. rewrite app_nil_r, Hp. split; [reflexivity|].
  constructor.
Qed.

Lemma calls_only_then1 {A B} (allowed : call -> Prop) (p : Promise A)
    (f : A -> Promise B) :
  calls_only allowed p -> (forall a, calls_only allowed (f a)) ->
  calls_only allowed (then1 p f).
Proof.
  intros Hp Hf. apply calls_only_then2; [exact Hp | exact Hf |].
  intros e. now apply calls_only_silent.
Qed.

Lemma calls_only_record (allowed : call -> Prop) (c : call) :
  allowed c -> calls_only allowed (record c).
Proof.
  intros Hc st. exists [c]. split; [reflexivity|]. now apply Forall_singleton.
Qed.

Lemma calls_only_all2 {A B} (allowed : call -> Prop) (b : bool)
    (p : Promise A) (q : Promise B) :
  calls_only allowed p -> calls_only allowed q ->
  calls_only allowed (all2 b p q).
Proof.
  intros Hp Hq st. unfold all2.
  destruct (Hp st) as (l1 & E1 & N1). destruct (p st) as [st1 a].
  cbn [fst] in E1.
  destruct (Hq st1) as (l2 & E2 & N2). destruct (q st1) as [st2 c].
  cbn [fst] in *. exists (l1 ++ l2). rewrite E2, E1, app_assoc.
  split; [reflexivity | now apply Forall_app_2].
Qed.

Lemma calls_only_resolveDimensions (allowed : call -> Prop) (w : World)
    (size : option Sizes) :
  allowed Evaluate -> allowed SetViewport ->
  calls_only allowed (resolveDimensions w size).
Proof.
  intros He Hv.
  unfold resolveDimensions, page_evaluate, page_property_viewportSize.
  repeat (first
    [ apply calls_only_then1
    | apply calls_only_record; assumption
    | apply calls_only_silent; intros st;
      first [reflexivity | now destruct (setSVGDimensions _ _)]
    | intros ? ]).
Qed.

Lemma calls_only_convert (allowed : call -> Prop) (w : World)
    (encode decode : string -> string) (srcPath : string)
    (size : option Sizes) :
  (forall c, c <> WriteFile -> allowed c) ->
  calls_only allowed (convert w encode decode srcPath size).
Proof.
  intros Hall.
  assert (Hrec : forall c, c <> WriteFile -> calls_only allowed (record c))
    by (intros c Hc; apply calls_only_record; auto).
  unfold convert. apply calls_only_then1.
  - apply calls_only_all2.
    + unfold createPage. apply calls_only_then1; [now apply Hrec|].
      intros _. now apply calls_only_silent.
    + unfold fileToBase64. apply calls_only_then1; [now apply Hrec|].
      intros _. apply calls_only_then1; [now apply calls_only_silent|].
      intros data. now apply calls_only_silent.
  - intros [page pageContent]. apply calls_only_then2.
    + unfold render, page_open, page_renderBase64.
      apply calls_only_then1.
      * apply calls_only_then1; [now apply Hrec|]. intros _.
        apply calls_only_then1; [now apply calls_only_silent|].
        intros status. now apply calls_only_silent.
      * intros status. apply calls_only_then1.
        -- destruct (decide (status = "success")).
           ++ apply calls_only_resolveDimensions; now apply Hall.
           ++ now apply calls_only_silent.
        -- intros _. apply calls_only_then1.
           ++ apply calls_only_then1; [now apply Hrec|].
              intros _. now apply calls_only_silent.
           ++ intros img. now apply calls_only_silent.
    + intros img. unfold closePage.
      apply calls_only_then1; [now apply Hrec|].
      intros _. now apply calls_only_silent.
    + intros e. unfold closePage.
      apply calls_only_then1; [now apply Hrec|].
      intros _. now apply calls_only_silent.
Qed.

(** X18.  A job whose conversion is rejected writes no file: the worker
    is rejected with the reason of the conversion, in the state the
    conversion left, and no call made on the way is a write. *)
Theorem worker_rejected_writes_nothing (w : World)
    (encode decode : string -> string) (srcPath dstPath : string)
    (size : option Sizes) (st : State) (e : error) :
  (convert w encode decode srcPath size st).2 = inl e ->
  (worker w encode decode srcPath dstPath size st).2 = inl e
  /\ exists l,
       log (worker w encode decode srcPath dstPath size st).1
       = log st ++ l
       /\ WriteFile ∉ l.
Proof.
  intros Hconv.
  destruct (calls_only_convert (fun c => c <> WriteFile) w encode decode
              srcPath size (fun c Hc => Hc) st) as (l & Hlog & Hl).
  unfold worker. promise.
  destruct (convert w encode decode srcPath size st) as [st1 [e'|buffer]];
    cbn [fst snd] in *; [|discriminate].
  split; [exact Hconv|]. exists l. split; [exact Hlog|].
  intros Hin. rewrite Forall_forall in Hl. now apply (Hl WriteFile).
Qed.

(** ** The pool of workers *)

Lemma pop_None {A} (l : list A) : pop l = None -> l = [].
Proof.
  unfold pop. destruct (reverse l) as [|x r] eqn:E; [|discriminate].
  intros _. rewrite <- (reverse_involutive l), E. reflexivity.
Qed.

Lemma pop_Some {A} (l r : list A) (x : A) :
  pop l = Some (r, x) -> l = r ++ [x].
Proof.
  unfold pop. destruct (reverse l) as [|y t] eqn:E; [discriminate|].
  intros [= <- <-]. rewrite <- (reverse_involutive l), E.
  apply reverse_cons.
Qed.

Lemma remove_one_length (x : string) (l : list string) :
  x ∈ l -> S (length (remove_one x l)) = length l.
Proof.
  induction l as [|y l IH]; intros Hin.
  - now apply elem_of_nil in Hin.
  - cbn [remove_one]. destruct (decide (x = y)) as [->|Hne]; [reflexivity|].
    apply elem_of_cons in Hin as [?|Hin]; [contradiction|].
    cbn [length]. now rewrite IH.
Qed.

Lemma remove_one_Permutation (x : string) (l : list string) :
  x ∈ l -> x :: remove_one x l ≡ₚ l.
Proof.
  induction l as [|y l IH]; intros Hin.
  - now apply elem_of_nil in Hin.
  - cbn [remove_one]. destruct (decide (x = y)) as [->|Hne]; [reflexivity|].
    apply elem_of_cons in Hin as [?|Hin]; [contradiction|].
    rewrite Permutation_swap. now rewrite IH.
Qed.

Lemma foldl_startWorker (l : list string) (s : Pool) :
  foldl (fun s worker => startWorker worker s) s l
  = {| restWorkers := restWorkers s; running := running s ++ l;
       reactions := reactions s; results := results s;
       errors := errors s; batch := batch s |}.
Proof.
  revert s. induction l as [|x l IH]; intros s.
  - cbn [foldl]. rewrite app_nil_r. now destruct s.
  - cbn [foldl]. rewrite IH. unfold startWorker.
    cbn [restWorkers running reactions results errors batch].
    now rewrite <- app_assoc.
Qed.

Lemma convertMany_start (fileMap : gmap string string) (pages : Z) :
  convertMany fileMap pages
  = {| restWorkers := drop (Z.to_nat pages) (Object_keys fileMap);
       running := take (Z.to_nat pages) (Object_keys fileMap);
       reactions := 0; results := []; errors := []; batch := None |}.
Proof. unfold convertMany, splice0. now rewrite foldl_startWorker. Qed.

Section PoolFacts.

Variable fileMap : gmap string string.
Variable pages : Z.
Variable outcome : string -> error + string.

Let keys := Object_keys fileMap.
Let slots := Nat.min (Z.to_nat pages) (length keys).

Lemma outcomes_length (ps : list string) :
  (length (reasons_of outcome ps) + length (values_of outcome ps))%nat
  = length ps.
Proof.
  induction ps as [|p ps IH]; [reflexivity|].
  unfold reasons_of, values_of in *. cbn [omap list_omap].
  destruct (outcome p); cbn [length]; lia.
Qed.

Lemma exec_snoc (s : Pool) (evs : list event) (ev : event) :
  exec fileMap outcome s (evs ++ [ev])
  = match exec fileMap outcome s evs with
    | Some s' => step fileMap outcome s' ev
    | None => None
    end.
Proof.
  revert s. induction evs as [|e evs IH]; intros s; cbn [exec app].
  - now destruct (step fileMap outcome s ev).
  - destruct (step fileMap outcome s e); [apply IH | reflexivity].
Qed.

Lemma exec_app (s : Pool) (evs1 evs2 : list event) :
  exec fileMap outcome s (evs1 ++ evs2)
  = match exec fileMap outcome s evs1 with
    | Some s' => exec fileMap outcome s' evs2
    | None => None
    end.
Proof.
  revert s. induction evs1 as [|e evs IH]; intros s; cbn [exec app].
  - reflexivity.
  - destruct (step fileMap outcome s e); [apply IH | reflexivity].
Qed.

(** What holds of the pool after any sequence of events. *)
Record invariant (evs : list event) (s : Pool) : Prop := {
  inv_jobs : restWorkers s ++ running s ++ settled_of evs ≡ₚ keys;
  inv_results : results s = values_of outcome (settled_of evs);
  inv_errors : errors s = reasons_of outcome (settled_of evs);
  inv_slots : (length (running s) + reactions s <= slots)%nat;
  inv_batch : forall v, batch s = Some v ->
      restWorkers s = [] /\ running s = []
      /\ v = (if (0 <? length (errors s))%nat
              then Rejected (errors s) else Resolved (results s));
  inv_alive : (1 <= slots)%nat ->
      running s <> [] \/ (0 < reactions s)%nat \/ batch s <> None
}.

Lemma invariant_count (evs : list event) (s : Pool) :
  invariant evs s ->
  (length (restWorkers s) + length (running s)
   + (length (errors s) + length (results s)))%nat = length keys.
Proof.
  intros [Hjobs Hres Herr _ _ _].
  rewrite <- Hjobs, !length_app, Hres, Herr, outcomes_length. lia.
Qed.

Lemma invariant_start : invariant [] (convertMany fileMap pages).
Proof.
  rewrite convertMany_start. fold keys. split;
    cbn [restWorkers running reactions results errors batch settled_of
         omap list_omap].
  - rewrite app_nil_r, Permutation_app_comm. now rewrite take_drop.
  - reflexivity.
  - reflexivity.
  - rewrite length_take. unfold slots. lia.
  - discriminate.
  - intros Hslots. left. intros Hnil.
    apply (f_equal length) in Hnil. rewrite length_take in Hnil.
    unfold slots in Hslots. cbn [length] in Hnil. lia.
Qed.

Lemma settled_of_snoc (evs : list event) (ev : event) :
  settled_of (evs ++ [ev])
  = settled_of evs
    ++ match ev with Settle p => [p] | ProcessNext => [] end.
Proof. unfold settled_of. rewrite omap_app. now destruct ev. Qed.

Lemma invariant_step (evs : list event) (s s' : Pool) (ev : event) :
  invariant evs s -> step fileMap outcome s ev = Some s' ->
  invariant (evs ++ [ev]) s'.
Proof.
  intros Hinv Hstep. pose proof (invariant_count evs s Hinv) as Hcount.
  destruct Hinv as [Hjobs Hres Herr Hslots Hbatch Halive].
  destruct ev as [p|]; cbn [step] in Hstep.
  - (* the worker of [p] settles *)
    destruct (decide (p ∈ running s)) as [Hin|]; [|discriminate].
    injection Hstep as <-.
    pose proof (remove_one_length p _ Hin) as Hlen.
    split; rewrite ?settled_of_snoc;
      cbn [settled restWorkers running reactions results errors batch].
    + rewrite <- Hjobs. apply Permutation_app_head.
      rewrite (Permutation_app_comm (settled_of evs) [p]). cbn [app].
      rewrite <- Permutation_middle.
      change ((p :: remove_one p (running s)) ++ settled_of evs
              ≡ₚ running s ++ settled_of evs).
      apply Permutation_app; [now apply remove_one_Permutation | reflexivity].
    + unfold values_of in *. rewrite omap_app, <- Hres. cbn [omap list_omap].
      destruct (outcome p); [now rewrite app_nil_r | reflexivity].
    + unfold reasons_of in *. rewrite omap_app, <- Herr. cbn [omap list_omap].
      destruct (outcome p); [reflexivity | now rewrite app_nil_r].
    + lia.
    + intros v Hv. destruct (Hbatch v Hv) as (_ & Hrun & _).
      rewrite Hrun in Hin. now apply elem_of_nil in Hin.
    + intros _. right. left. lia.
  - (* a queued [processNext] runs *)
    destruct (reactions s) as [|n] eqn:Hreact; [discriminate|].
    injection Hstep as <-.
    assert (Hsame : settled_of (evs ++ [ProcessNext]) = settled_of evs)
      by (rewrite settled_of_snoc; apply app_nil_r).
    cut (invariant evs
           (processNext fileMap
              {| restWorkers := restWorkers s; running := running s;
                 reactions := n; results := results s; errors := errors s;
                 batch := batch s |})).
    { intros [? ? ? ? ? ?]. split; rewrite ?Hsame; assumption. }
    unfold processNext.
    cbn [restWorkers running reactions results errors batch].
    destruct (pop (restWorkers s)) as [[rest next]|] eqn:Hpop.
    + apply pop_Some in Hpop.
      split; cbn [startWorker restWorkers running reactions results errors
                  batch]; try assumption.
      * rewrite <- Hjobs, Hpop, <- !app_assoc.
        apply Permutation_app_head. rewrite !app_assoc.
        apply Permutation_app_tail, Permutation_app_comm.
      * rewrite length_app. cbn [length]. lia.
      * intros v Hv. destruct (Hbatch v Hv) as (Hrest & _).
        rewrite Hrest in Hpop. now destruct rest.
      * intros _. left. now destruct (running s).
    + apply pop_None in Hpop. rewrite Hpop in Hcount. cbn [length] in Hcount.
      fold keys.
      destruct (length keys <=? length (errors s) + length (results s))%nat
        eqn:Hdone.
      * apply Nat.leb_le in Hdone.
        assert (Hrun : running s = [])
          by (destruct (running s); [reflexivity | cbn [length] in Hcount; lia]).
        assert (Hgoal : invariant evs
                  (settle_batch
                     (if (0 <? length (errors s))%nat
                      then Rejected (errors s) else Resolved (results s))
                     {| restWorkers := restWorkers s; running := running s;
                        reactions := n; results := results s;
                        errors := errors s; batch := batch s |})).
        { unfold settle_batch.
          cbn [restWorkers running reactions results errors batch].
          destruct (batch s) as [v0|] eqn:Hb.
          - split; cbn [restWorkers running reactions results errors batch];
              try assumption; [lia|].
            intros _. right. right. discriminate.
          - split; cbn [restWorkers running reactions results errors batch];
              try assumption; [lia | |].
            + intros v [= <-]. auto.
            + intros _. right. right. discriminate. }
        destruct (0 <? length (errors s))%nat; exact Hgoal.
      * apply Nat.leb_gt in Hdone.
        split; cbn [restWorkers running reactions results errors batch];
          try assumption; [lia|].
        intros _. left. intros Hrun. rewrite Hrun in Hcount.
        cbn [length] in Hcount. lia.
Qed.

Lemma invariant_exec (evs : list event) (s : Pool) :
  exec fileMap outcome (convertMany fileMap pages) evs = Some s ->
  invariant evs s.
Proof.
  revert s. induction evs as [|ev evs IH] using rev_ind; intros s Hexec.
  - injection Hexec as <-. apply invariant_start.
  - rewrite exec_snoc in Hexec.
    destruct (exec fileMap outcome (convertMany fileMap pages) evs)
      as [s0|]; [|discriminate].
    eapply invariant_step; eauto.
Qed.

Lemma batch_stable (s s' : Pool) (ev : event) (v : settlement) :
  step fileMap outcome s ev = Some s' -> batch s = Some v ->
  batch s' = Some v.
Proof.
  intros Hstep Hv. destruct ev as [p|]; cbn [step] in Hstep.
  - destruct (decide (p ∈ running s)); [|discriminate].
    now injection Hstep as <-.
  - destruct (reactions s) as [|n]; [discriminate|].
    injection Hstep as <-. unfold processNext, settle_batch.
    cbn [restWorkers running reactions results errors batch].
    destruct (pop (restWorkers s)) as [[rest next]|]; [exact Hv|].
    rewrite Hv. cbn [batch].
    destruct (_ <=? _)%nat; [|reflexivity].
    destruct (0 <? _)%nat; reflexivity.
Qed.

(** Once the batch is settled the two arrays it was settled from do not
    change any more: the settlement may hold them by reference. *)
Lemma settled_batch_frozen (evs : list event) (s s' : Pool) (ev : event)
    (v : settlement) :
  exec fileMap outcome (convertMany fileMap pages) evs = Some s ->
  batch s = Some v -> step fileMap outcome s ev = Some s' ->
  results s' = results s /\ errors s' = errors s.
Proof.
  intros Hexec Hv Hstep.
  destruct (inv_batch _ _ (invariant_exec evs s Hexec) v Hv)
    as (Hrest & Hrun & _).
  destruct ev as [p|]; cbn [step] in Hstep.
  - rewrite Hrun in Hstep.
    destruct (decide (p ∈ [])) as [Hin|]; [|discriminate].
    now apply elem_of_nil in Hin.
  - destruct (reactions s) as [|n]; [discriminate|].
    injection Hstep as <-. unfold processNext, settle_batch.
    cbn [restWorkers running reactions results errors batch].
    rewrite Hrest, Hv. cbn [pop reverse rev_append].
    destruct (_ <=? _)%nat; [destruct (0 <? _)%nat|]; auto.
Qed.

(** With at least one slot the pool never comes to rest with the batch
    pending. *)
Lemma batch_settled_at_rest (evs : list event) (s : Pool) :
  (1 <= slots)%nat ->
  exec fileMap outcome (convertMany fileMap pages) evs = Some s ->
  running s = [] -> reactions s = 0%nat -> batch s <> None.
Proof.
  intros Hslots Hexec Hrun Hreact.
  destruct (inv_alive _ _ (invariant_exec evs s Hexec) Hslots)
    as [? | [? | ?]]; [contradiction | lia | assumption].
Qed.

(** From any state the pool can be driven to rest. *)
Lemma pool_can_rest (s : Pool) :
  exists evs s',
    exec fileMap outcome s evs = Some s'
    /\ running s' = [] /\ reactions s' = 0%nat.
Proof.
  remember (3 * length (restWorkers s) + 2 * length (running s)
            + reactions s)%nat as m eqn:Hm.
  revert s Hm. induction m as [m IH] using lt_wf_ind. intros s Hm.
  destruct (reactions s) as [|n] eqn:Hreact.
  - destruct (running s) as [|p run] eqn:Hrun.
    + exists [], s. auto.
    + destruct (IH (3 * length (restWorkers s)
                    + 2 * length (remove_one p (running s))
                    + S (reactions s))%nat) with (s := settled outcome p s)
        as (evs & s' & Hexec & Hrest).
      * assert (Hin : p ∈ running s) by (rewrite Hrun; left).
        pose proof (remove_one_length p _ Hin). rewrite Hrun in *.
        cbn [length] in *. lia.
      * reflexivity.
      * exists (Settle p :: evs), s'. split; [|exact Hrest].
        cbn [exec step]. rewrite Hrun.
        destruct (decide (p ∈ p :: run)) as [_|Hnot];
          [exact Hexec | exfalso; apply Hnot; left].
  - set (s0 := {| restWorkers := restWorkers s; running := running s;
                  reactions := n; results := results s;
                  errors := errors s; batch := batch s |}).
    destruct (IH (3 * length (restWorkers (processNext fileMap s0))
                  + 2 * length (running (processNext fileMap s0))
                  + reactions (processNext fileMap s0))%nat)
      with (s := processNext fileMap s0) as (evs & s' & Hexec & Hrest).
    + subst m. unfold processNext, settle_batch, s0.
      cbn [restWorkers running reactions results errors batch].
      destruct (pop (restWorkers s)) as [[rest next]|] eqn:Hpop.
      * apply pop_Some in Hpop. rewrite Hpop.
        cbn [startWorker restWorkers running reactions].
        rewrite !length_app. cbn [length]. lia.
      * destruct (_ <=? _)%nat; [destruct (0 <? _)%nat|];
          destruct (batch s);
          cbn [restWorkers running reactions]; lia.
    + reflexivity.
    + exists (ProcessNext :: evs), s'. split; [|exact Hrest].
      cbn [exec step]. now rewrite Hreact.
Qed.

(** X20.  With at least one page allowed, the executor starts exactly
    min(pages, number of jobs) workers.  After any sequence of events the
    workers in flight, together with the slots freed by a settled worker
    and not yet taken again, number at most min(pages, number of jobs).
    A worker is started only by a run of [processNext], one worker per
    run, and each run consumes a slot that a settled worker freed. *)
Theorem convertMany_bounded :
  (1 <= pages)%Z ->
  Z.of_nat (length (running (convertMany fileMap pages)))
  = Z.min pages (Z.of_nat (length (Object_keys fileMap)))
  /\ (forall evs s,
        exec fileMap outcome (convertMany fileMap pages) evs = Some s ->
        (Z.of_nat (length (running s) + reactions s)
         <= Z.min pages (Z.of_nat (length (Object_keys fileMap))))%Z
        /\ (forall ev s', step fileMap outcome s ev = Some s' ->
              match ev with
              | Settle _ =>
                  S (length (running s')) = length (running s)
                  /\ reactions s' = S (reactions s)
              | ProcessNext =>
                  (length (running s') <= S (length (running s)))%nat
                  /\ S (reactions s') = reactions s
              end)).
Proof.
  intros Hpages. split.
  - rewrite convertMany_start. cbn [running]. rewrite length_take. lia.
  - intros evs s Hexec. split.
    + pose proof (inv_slots _ _ (invariant_exec evs s Hexec)) as Hs.
      unfold slots, keys in Hs. lia.
    + intros ev s' Hstep. destruct ev as [p|]; cbn [step] in Hstep.
      * destruct (decide (p ∈ running s)) as [Hin|]; [|discriminate].
        injection Hstep as <-. cbn [settled running reactions].
        split; [now apply remove_one_length | reflexivity].
      * destruct (reactions s) as [|n]; [discriminate|].
        injection Hstep as <-. unfold processNext, settle_batch.
        cbn [restWorkers running reactions results errors batch].
        destruct (pop (restWorkers s)) as [[rest next]|].
        -- cbn [startWorker running reactions]. rewrite length_app.
           cbn [length]. split; [lia | reflexivity].
        -- destruct (_ <=? _)%nat; [destruct (0 <? _)%nat|];
             destruct (batch s); cbn [running reactions];
             split; (lia || reflexivity).
Qed.

Lemma slots_positive :
  (1 <= pages)%Z -> fileMap <> ∅ -> (1 <= slots)%nat.
Proof.
  intros Hpages Hne. unfold slots, keys, Object_keys.
  rewrite length_fmap, length_map_to_list.
  apply map_size_non_empty_iff in Hne. lia.
Qed.

(** X1.  With a job to run and a page to run it on, the promise of the
    batch is settled once and for all: not before every job has settled, never
    a second time, and always in the end. *)
Lemma convertMany_settles_once :
  (1 <= pages)%Z -> fileMap <> ∅ ->
  forall evs s,
    exec fileMap outcome (convertMany fileMap pages) evs = Some s ->
    (batch s <> None ->
     restWorkers s = [] /\ running s = []
     /\ (length (errors s) + length (results s))%nat
        = length (Object_keys fileMap))
    /\ (forall ev s' v,
          step fileMap outcome s ev = Some s' -> batch s = Some v ->
          batch s' = Some v)
    /\ (exists evs' s',
          exec fileMap outcome s evs' = Some s' /\ batch s' <> None).
Proof.
  intros Hpages Hne evs s Hexec.
  pose proof (invariant_exec evs s Hexec) as Hinv.
  split; [|split].
  - intros Hb. destruct (batch s) as [v|] eqn:Hv; [|contradiction].
    destruct (inv_batch _ _ Hinv v Hv) as (Hrest & Hrun & _).
    pose proof (invariant_count evs s Hinv) as Hcount.
    rewrite Hrest, Hrun in Hcount. cbn [length] in Hcount. auto.
  - intros ev s' v. apply batch_stable.
  - destruct (pool_can_rest s) as (evs' & s' & Hexec' & Hrun & Hreact).
    exists evs', s'. split; [exact Hexec'|].
    apply (batch_settled_at_rest (evs ++ evs') s');
      [now apply slots_positive | | exact Hrun | exact Hreact].
    rewrite exec_app, Hexec. exact Hexec'.
Qed.

(** C2.  Whenever the promise of the batch is settled, every job has
    settled, each once.  If none of them was rejected the promise is
    resolved with the values of all the jobs; otherwise it is rejected with
    the reasons of the rejected jobs and with nothing else: the values of
    the jobs that succeeded are not part of the rejection.  With a job to
    run and a page to run it on, the promise is settled as soon as the
    pool is at rest. *)
Theorem convertMany_batch_result :
  (forall evs s v,
      exec fileMap outcome (convertMany fileMap pages) evs = Some s ->
      batch s = Some v ->
      settled_of evs ≡ₚ Object_keys fileMap
      /\ (reasons_of outcome (settled_of evs) = []
          /\ v = Resolved (values_of outcome (settled_of evs))
          \/ reasons_of outcome (settled_of evs) <> []
             /\ v = Rejected (reasons_of outcome (settled_of evs))))
  /\ ((1 <= pages)%Z -> fileMap <> ∅ ->
      forall evs s,
        exec fileMap outcome (convertMany fileMap pages) evs = Some s ->
        running s = [] -> reactions s = 0%nat ->
        exists v, batch s = Some v).
Proof.
  split.
  - intros evs s v Hexec Hv.
    pose proof (invariant_exec evs s Hexec) as Hinv.
    destruct (inv_batch _ _ Hinv v Hv) as (Hrest & Hrun & ->).
    pose proof (inv_jobs _ _ Hinv) as Hjobs.
    rewrite Hrest, Hrun in Hjobs. cbn [app] in Hjobs. split; [exact Hjobs|].
    rewrite (inv_results _ _ Hinv), (inv_errors _ _ Hinv).
    destruct (reasons_of outcome (settled_of evs)) as [|e es].
    + left. auto.
    + right. split; [discriminate | reflexivity].
  - intros Hpages Hne evs s Hexec Hrun Hreact.
    pose proof (batch_settled_at_rest evs s (slots_positive Hpages Hne)
                  Hexec Hrun Hreact) as Hb.
    destruct (batch s) as [v|]; [eauto | contradiction].
Qed.

Lemma refill_step (s s' : Pool) (ev : event) :
  (restWorkers s <> [] -> (length (running s) + reactions s)%nat = slots) ->
  step fileMap outcome s ev = Some s' ->
  restWorkers s' <> [] -> (length (running s') + reactions s')%nat = slots.
Proof.
  intros Hs Hstep. destruct ev as [p|]; cbn [step] in Hstep.
  - destruct (decide (p ∈ running s)) as [Hin|]; [|discriminate].
    injection Hstep as <-. cbn [settled restWorkers running reactions].
    intros Hrest. pose proof (remove_one_length p _ Hin).
    specialize (Hs Hrest). lia.
  - destruct (reactions s) as [|n]; [discriminate|].
    injection Hstep as <-. unfold processNext, settle_batch.
    cbn [restWorkers running reactions results errors batch].
    destruct (pop (restWorkers s)) as [[rest next]|] eqn:Hpop.
    + apply pop_Some in Hpop.
      cbn [startWorker restWorkers running reactions]. intros _.
      rewrite length_app. cbn [length].
      assert (Hne : restWorkers s <> [])
        by (rewrite Hpop; now destruct rest).
      specialize (Hs Hne). lia.
    + apply pop_None in Hpop.
      destruct (_ <=? _)%nat; [destruct (0 <? _)%nat|];
        destruct (batch s); cbn [restWorkers]; intros Hne;
        now rewrite Hpop in Hne.
Qed.

(** X5.  No slot idles while workers are waiting: as long as
    [restWorkers] is not empty, the workers in flight and the queued runs
    of [processNext], each of which starts a waiting worker, together
    number exactly min(pages, number of jobs). *)
Theorem convertMany_eager_refill (evs : list event) (s : Pool) :
  exec fileMap outcome (convertMany fileMap pages) evs = Some s ->
  restWorkers s <> [] ->
  (length (running s) + reactions s)%nat
  = Nat.min (Z.to_nat pages) (length (Object_keys fileMap)).
Proof.
  revert s. induction evs as [|ev evs IH] using rev_ind; intros s Hexec.
  - injection Hexec as <-. rewrite convertMany_start.
    cbn [restWorkers running reactions]. intros _.
    rewrite length_take. lia.
  - rewrite exec_snoc in Hexec.
    destruct (exec fileMap outcome (convertMany fileMap pages) evs)
      as [s0|]; [|discriminate].
    exact (refill_step s0 s ev (IH s0 eq_refl) Hexec).
Qed.

(** X6.  Every run of the pool is finite: each event is the settlement
    of a job or a run of [processNext] queued by one, so a sequence of
    events is at most twice as long as the number of jobs. *)
Theorem convertMany_run_length (evs : list event) (s : Pool) :
  exec fileMap outcome (convertMany fileMap pages) evs = Some s ->
  (length evs + reactions s)%nat = (2 * length (settled_of evs))%nat
  /\ (length evs <= 2 * length (Object_keys fileMap))%nat.
Proof.
  intros Hexec.
  assert (Hbalance : (length evs + reactions s)%nat
                     = (2 * length (settled_of evs))%nat).
  { revert s Hexec.
    induction evs as [|ev evs IH] using rev_ind; intros s Hexec.
    - injection Hexec as <-. now rewrite convertMany_start.
    - rewrite exec_snoc in Hexec.
      destruct (exec fileMap outcome (convertMany fileMap pages) evs)
        as [s0|]; [|discriminate].
      specialize (IH s0 eq_refl).
      rewrite settled_of_snoc, !length_app. cbn [length].
      destruct ev as [p|]; cbn [step] in Hexec.
      + destruct (decide (p ∈ running s0)); [|discriminate].
        injection Hexec as <-. cbn [settled reactions length]. lia.
      + destruct (reactions s0) as [|n]; [discriminate|].
        injection Hexec as <-. unfold processNext, settle_batch.
        cbn [restWorkers running reactions results errors batch].
        destruct (pop (restWorkers s0)) as [[rest next]|];
          [cbn [startWorker reactions length]; lia|].
        destruct (_ <=? _)%nat; [destruct (0 <? _)%nat|];
          destruct (batch s0); cbn [reactions length]; lia. }
  split; [exact Hbalance|].
  pose proof (inv_jobs _ _ (invariant_exec evs s Hexec)) as Hjobs.
  apply Permutation_length in Hjobs. rewrite !length_app in Hjobs.
  unfold keys in Hjobs. lia.
Qed.

(** X4.  No job is skipped, started twice or cancelled.  At any time
    every source path of the file map is in exactly one place: waiting,
    in flight, or settled.  With at least one page allowed, the pool can
    always be driven on, whatever the outcomes so far, until every job
    has settled. *)
Theorem convertMany_every_job_settles (evs : list event) (s : Pool) :
  (1 <= pages)%Z ->
  exec fileMap outcome (convertMany fileMap pages) evs = Some s ->
  restWorkers s ++ running s ++ settled_of evs ≡ₚ Object_keys fileMap
  /\ NoDup (restWorkers s ++ running s ++ settled_of evs)
  /\ (exists evs' s',
        exec fileMap outcome s evs' = Some s'
        /\ settled_of (evs ++ evs') ≡ₚ Object_keys fileMap).
Proof.
  intros Hpages Hexec.
  pose proof (inv_jobs _ _ (invariant_exec evs s Hexec)) as Hjobs.
  split; [exact Hjobs | split].
  - rewrite Hjobs. apply NoDup_fst_map_to_list.
  - destruct (pool_can_rest s) as (evs' & s' & Hexec' & Hrun & Hreact).
    exists evs', s'. split; [exact Hexec'|].
    assert (Hall : exec fileMap outcome (convertMany fileMap pages)
                     (evs ++ evs') = Some s')
      by (rewrite exec_app, Hexec; exact Hexec').
    pose proof (invariant_exec _ _ Hall) as Hinv.
    pose proof (inv_jobs _ _ Hinv) as Hjobs'.
    assert (Hrest : restWorkers s' = []).
    { destruct (Nat.eq_dec slots 0) as [Hz|Hnz].
      - assert (Hkeys : length keys = 0%nat) by (unfold slots in Hz; lia).
        apply Permutation_length in Hjobs'.
        rewrite !length_app, Hkeys in Hjobs'.
        destruct (restWorkers s'); [reflexivity | cbn [length] in Hjobs'; lia].
      - assert (Hb : batch s' <> None)
          by (apply (batch_settled_at_rest (evs ++ evs') s'); auto; lia).
        destruct (batch s') as [v|] eqn:Hv; [|contradiction].
        now destruct (inv_batch _ _ Hinv v Hv). }
    now rewrite Hrest, Hrun in Hjobs'.
Qed.

(** With at least one page allowed there is a run in which every job
    settles. *)
Lemma all_jobs_can_settle :
  (1 <= pages)%Z ->
  exists evs s,
    exec fileMap outcome (convertMany fileMap pages) evs = Some s
    /\ settled_of evs ≡ₚ Object_keys fileMap.
Proof.
  intros Hpages.
  destruct (pool_can_rest (convertMany fileMap pages))
    as (evs & s & Hexec & Hrun & Hreact).
  exists evs, s. split; [exact Hexec|].
  pose proof (invariant_exec _ _ Hexec) as Hinv.
  pose proof (inv_jobs _ _ Hinv) as Hjobs.
  assert (Hrest : restWorkers s = []).
  { destruct (Nat.eq_dec slots 0) as [Hz|Hnz].
    - assert (Hkeys : length keys = 0%nat) by (unfold slots in Hz; lia).
      apply Permutation_length in Hjobs. rewrite !length_app, Hkeys in Hjobs.
      destruct (restWorkers s); [reflexivity | cbn [length] in Hjobs; lia].
    - assert (Hb : batch s <> None)
        by (apply (batch_settled_at_rest evs s); auto; lia).
      destruct (batch s) as [v|] eqn:Hv; [|contradiction].
      now destruct (inv_batch _ _ Hinv v Hv). }
  now rewrite Hrest, Hrun in Hjobs.
Qed.

End PoolFacts.

(** C1.  For the empty file map the executor starts no worker and queues
    no reaction, so [processNext], the only code that settles the batch,
    never runs: the promise stays pending and no event can occur. *)
Theorem convertMany_empty_never_settles (pages : Z)
    (outcome : string -> error + string) :
  convertMany ∅ pages
  = {| restWorkers := []; running := []; reactions := 0; results := [];
       errors := []; batch := None |}
  /\ (forall ev, step ∅ outcome (convertMany ∅ pages) ev = None)
  /\ (forall evs s,
        exec ∅ outcome (convertMany ∅ pages) evs = Some s ->
        evs = [] /\ batch s = None).
Proof.
  assert (Hstart : convertMany ∅ pages
                   = {| restWorkers := []; running := []; reactions := 0;
                        results := []; errors := []; batch := None |}).
  { rewrite convertMany_start. unfold Object_keys.
    rewrite map_to_list_empty. cbn [fmap list_fmap].
    now rewrite take_nil, drop_nil. }
  assert (Hstuck : forall ev, step ∅ outcome (convertMany ∅ pages) ev = None).
  { intros [p|]; rewrite Hstart; cbn [step running reactions];
      [|reflexivity].
    destruct (decide (p ∈ [])) as [Hin|]; [|reflexivity].
    now apply elem_of_nil in Hin. }
  split; [exact Hstart | split; [exact Hstuck|]].
  intros evs s Hexec. destruct evs as [|ev evs].
  - injection Hexec as <-. now rewrite Hstart.
  - cbn [exec] in Hexec. now rewrite Hstuck in Hexec.
Qed.

Lemma exec_stuck (fileMap : gmap string string)
    (outcome : string -> error + string) (s0 : Pool) :
  running s0 = [] -> reactions s0 = 0%nat ->
  forall evs s, exec fileMap outcome s0 evs = Some s -> evs = [] /\ s = s0.
Proof.
  intros Hrun Hreact evs s. destruct evs as [|ev evs]; cbn [exec].
  - now intros [= <-].
  - destruct ev as [p|]; cbn [step]; rewrite ?Hrun, ?Hreact.
    + destruct (decide (p ∈ [])) as [Hin|]; [|discriminate].
      now apply elem_of_nil in Hin.
    + discriminate.
Qed.

(** X7.  With no page allowed (a limit of zero or less) the executor
    starts nothing, whatever the file map: every job stays waiting, no
    event can occur and the promise of the batch stays pending. *)
Theorem convertMany_without_pages (fileMap : gmap string string)
    (pages : Z) (outcome : string -> error + string) :
  (pages <= 0)%Z ->
  convertMany fileMap pages
  = {| restWorkers := Object_keys fileMap; running := []; reactions := 0;
       results := []; errors := []; batch := None |}
  /\ (forall evs s,
        exec fileMap outcome (convertMany fileMap pages) evs = Some s ->
        evs = [] /\ batch s = None).
Proof.
  intros Hpages.
  assert (Hstart : convertMany fileMap pages
                   = {| restWorkers := Object_keys fileMap; running := [];
                        reactions := 0; results := []; errors := [];
                        batch := None |}).
  { rewrite convertMany_start.
    replace (Z.to_nat pages) with 0%nat by lia. reflexivity. }
  split; [exact Hstart|]. intros evs s Hexec. rewrite Hstart in Hexec.
  apply exec_stuck in Hexec; [|reflexivity..].
  destruct Hexec as [-> ->]. auto.
Qed.

Lemma left_open_read_failure (w : World) (encode decode : string -> string)
    (srcPath dstPath : string) (size : option Sizes) (e : error) :
  createPage_reply w = None -> readFile_reply w = inl e ->
  left_open w (worker w encode decode srcPath dstPath size start).1 = 1%nat.
Proof.
  intros Hcreate Hread. unfold left_open. rewrite Hcreate.
  unfold worker, convert, createPage, fileToBase64. promise.
  rewrite Hcreate, Hread. cbn [start log app fst].
  destruct (decide _) as [_|Hno]; [reflexivity|].
  exfalso. apply Hno. split; [left|].
  rewrite !not_elem_of_cons. repeat split; try discriminate.
  apply not_elem_of_nil.
Qed.

Lemma open_contexts_read_failure (worlds : string -> World)
    (encode decode : string -> string) (fileMap : gmap string string)
    (size : option Sizes) (settled : list string) :
  (forall srcPath, createPage_reply (worlds srcPath) = None) ->
  (forall srcPath, exists e, readFile_reply (worlds srcPath) = inl e) ->
  open_contexts worlds encode decode fileMap size settled = length settled.
Proof.
  intros Hcreate Hread. unfold open_contexts, job_state.
  induction settled as [|p ps IH]; [reflexivity|].
  cbn [fmap list_fmap sum_list sum_list_with length].
  destruct (Hread p) as [e He].
  rewrite (left_open_read_failure _ _ _ _ _ _ e (Hcreate p) He).
  fold (fmap (M := list)
          (fun srcPath =>
             left_open (worlds srcPath)
               (worker (worlds srcPath) encode decode srcPath
                  (default "" (fileMap !! srcPath)) size start).1) ps).
  now rewrite IH.
Qed.

(** C3.  The bound on open render contexts does not hold.  When the
    engine hands over a page to every job and no source file can be read,
    each job settles with its page created and not closed; with at least
    one page allowed and more jobs than pages, there is a run of the pool
    after which the contexts left open number more than
    min(pages, number of jobs): every job has left one. *)
Theorem convertMany_open_contexts_exceed (worlds : string -> World)
    (encode decode : string -> string) (fileMap : gmap string string)
    (size : option Sizes) (pages : Z) :
  (forall srcPath, createPage_reply (worlds srcPath) = None) ->
  (forall srcPath, exists e, readFile_reply (worlds srcPath) = inl e) ->
  (1 <= pages)%Z -> (pages < Z.of_nat (length (Object_keys fileMap)))%Z ->
  exists evs s,
    exec fileMap (job worlds encode decode fileMap size)
      (convertMany fileMap pages) evs = Some s
    /\ open_contexts worlds encode decode fileMap size (settled_of evs)
       = length (Object_keys fileMap)
    /\ (Z.min pages (Z.of_nat (length (Object_keys fileMap)))
        < Z.of_nat
            (open_contexts worlds encode decode fileMap size
               (settled_of evs)))%Z.
Proof.
  intros Hcreate Hread Hpages Hmore.
  destruct (all_jobs_can_settle fileMap pages
              (job worlds encode decode fileMap size) Hpages)
    as (evs & s & Hexec & Hall).
  exists evs, s. split; [exact Hexec|].
  rewrite (open_contexts_read_failure _ _ _ _ _ _ Hcreate Hread).
  apply Permutation_length in Hall. rewrite Hall. split; [reflexivity | lia].
Qed.

(** ** The directory entry point *)

Section DirectoryFacts.

Variable path_join : string -> string -> string.
Variable path_parse_name : string -> string.
Variables srcDir dstDir : string.

Let srcFile (file : string) : string := path_join srcDir file.
Let dstFile (file : string) : string :=
  path_join dstDir (path_parse_name file +:+ ".png").

Let assign (fileMap : gmap string string) (file : string) :=
  <[srcFile file := dstFile file]> fileMap.

Lemma assign_lookup (selected : list string) (src dst : string) :
  foldl assign ∅ selected !! src = Some dst ->
  exists file, file ∈ selected /\ src = srcFile file /\ dst = dstFile file.
Proof.
  induction selected as [|file selected IH] using rev_ind.
  - cbn [foldl]. now rewrite lookup_empty.
  - rewrite foldl_snoc. unfold assign at 1.
    destruct (decide (srcFile file = src)) as [<-|Hne].
    + rewrite lookup_insert_eq. intros [= <-].
      exists file. rewrite elem_of_app, list_elem_of_singleton. auto.
    + rewrite lookup_insert_ne by exact Hne. intros Hlook.
      destruct (IH Hlook) as (f & Hin & Hf). exists f.
      rewrite elem_of_app. auto.
Qed.

Lemma assign_is_Some (selected : list string) (src : string) :
  is_Some (foldl assign ∅ selected !! src)
  <-> exists file, file ∈ selected /\ src = srcFile file.
Proof.
  split.
  - intros [dst Hdst]. destruct (assign_lookup _ _ _ Hdst) as (f & ? & ? & _).
    eauto.
  - intros (file & Hin & ->).
    induction selected as [|f selected IH] using rev_ind.
    + now apply elem_of_nil in Hin.
    + rewrite foldl_snoc. unfold assign at 1.
      destruct (decide (srcFile f = srcFile file)) as [->|Hne].
      * rewrite lookup_insert_eq. eauto.
      * rewrite lookup_insert_ne by exact Hne. apply IH.
        apply elem_of_app in Hin as [Hin|Hin]; [exact Hin|].
        apply list_elem_of_singleton in Hin. now subst f.
Qed.

Lemma assign_injective (selected : list string) (file : string) :
  (forall f g, srcFile f = srcFile g -> f = g) ->
  file ∈ selected ->
  foldl assign ∅ selected !! srcFile file = Some (dstFile file).
Proof.
  intros Hinj Hin. induction selected as [|f selected IH] using rev_ind.
  - now apply elem_of_nil in Hin.
  - rewrite foldl_snoc. unfold assign at 1.
    destruct (decide (srcFile f = srcFile file)) as [Heq|Hne].
    + apply Hinj in Heq. subst f. now rewrite lookup_insert_eq.
    + rewrite lookup_insert_ne by exact Hne. apply IH.
      apply elem_of_app in Hin as [Hin|Hin]; [exact Hin|].
      apply list_elem_of_singleton in Hin. now subst f.
Qed.

(** C9.  The file map [svg2PngDir] builds from the entries of the source
    directory has as keys exactly the joined source paths of the entries
    the filter accepts, and the filter accepts exactly the names that end
    in a dot followed by the letters s, v, g in either case.  Every value
    is the destination directory joined with the name part of such an
    entry followed by [.png]; when joining with the source directory
    keeps distinct entries distinct, every accepted entry is mapped to
    the destination built from its own name.  The map is handed as it is
    to the batch entry point, with the defaults for omitted options. *)
Theorem svg2PngDir_fileMap (files : list string) :
  let fileMap :=
    fileMap_of path_join path_parse_name srcDir dstDir files in
  (forall src,
      is_Some (fileMap !! src)
      <-> exists file,
            file ∈ files /\ Regex.SVG_REGEX_test file = true
            /\ src = path_join srcDir file)
  /\ (forall file,
        Regex.SVG_REGEX_test file = true
        <-> exists stem x, file = stem +:+ x /\ Regex.svg_suffix x)
  /\ (forall src dst,
        fileMap !! src = Some dst ->
        exists file,
          file ∈ files /\ Regex.SVG_REGEX_test file = true
          /\ src = path_join srcDir file
          /\ dst = path_join dstDir (path_parse_name file +:+ ".png"))
  /\ ((forall f g, path_join srcDir f = path_join srcDir g -> f = g) ->
      forall file,
        file ∈ files -> Regex.SVG_REGEX_test file = true ->
        fileMap !! path_join srcDir file
        = Some (path_join dstDir (path_parse_name file +:+ ".png")))
  /\ (forall R
        (batch : gmap string string -> option Sizes -> option Z -> error + R)
        size pages,
        svg2PngDir path_join path_parse_name batch (inr files)
          srcDir dstDir size pages
        = batch fileMap (Some (default empty_sizes size))
            (Some (default PARALLEL_PAGES pages))).
Proof.
  intros fileMap. unfold fileMap, fileMap_of.
  change (foldl _ ∅ ?l) with (foldl assign ∅ l).
  split; [|split; [|split; [|split]]].
  - intros src. rewrite assign_is_Some. unfold srcFile.
    split; intros (file & Hin & Hsrc).
    + apply list_elem_of_filter in Hin as [Htest Hin]. eauto.
    + destruct Hsrc as [Htest ->]. exists file.
      rewrite list_elem_of_filter. auto.
  - apply Regex.SVG_REGEX_test_spec.
  - intros src dst Hlook.
    destruct (assign_lookup _ _ _ Hlook) as (file & Hin & -> & ->).
    apply list_elem_of_filter in Hin as [Htest Hin]. exists file. auto.
  - intros Hinj file Hin Htest. apply (assign_injective _ file Hinj).
    rewrite list_elem_of_filter. auto.
  - reflexivity.
Qed.

Lemma assign_size (selected : list string) :
  (forall f g, f ∈ selected -> g ∈ selected ->
               srcFile f = srcFile g -> f = g) ->
  NoDup selected ->
  size (foldl assign ∅ selected) = length selected.
Proof.
  induction selected as [|file selected IH] using rev_ind; intros Hinj.
  - intros _. apply map_size_empty.
  - rewrite NoDup_app. intros (Hnd & Hfresh & _).
    rewrite foldl_snoc, length_app. cbn [length]. unfold assign at 1.
    rewrite map_size_insert_None, IH; [lia | | exact Hnd |].
    + intros f g Hf Hg. apply Hinj; rewrite elem_of_app; auto.
    + apply eq_None_not_Some. rewrite assign_is_Some.
      intros (f & Hin & Heq).
      apply Hinj in Heq;
        [| rewrite elem_of_app, list_elem_of_singleton; auto
         | rewrite elem_of_app; auto].
      subst f. apply (Hfresh file Hin). now apply list_elem_of_singleton.
Qed.

(** X9.  When the directory listing has no duplicates and joining with
    the source directory keeps the entries of the listing distinct, every
    entry the filter accepts becomes a job of its own: the file map has as
    many keys as there are accepted entries. *)
Theorem fileMap_of_size (files : list string) :
  (forall f g, f ∈ files -> g ∈ files ->
               path_join srcDir f = path_join srcDir g -> f = g) ->
  NoDup files ->
  length
    (Object_keys (fileMap_of path_join path_parse_name srcDir dstDir files))
  = length (filter (fun file => Regex.SVG_REGEX_test file = true) files).
Proof.
  intros Hinj Hnd. unfold Object_keys, fileMap_of.
  rewrite length_fmap, length_map_to_list.
  change (foldl _ ∅ ?l) with (foldl assign ∅ l).
  apply assign_size; [|now apply NoDup_filter].
  intros f g Hf Hg. apply list_elem_of_filter in Hf as [_ Hf].
  apply list_elem_of_filter in Hg as [_ Hg]. now apply Hinj.
Qed.

Section NoMatch.

Variable worlds : string -> World.
Variables base64_encode base64_decode : string -> string.

(** X8.  A directory without an entry the filter accepts gives the empty
    file map, and the batch started for it is the pool in which nothing
    runs and nothing is queued: no event can occur and its promise stays
    pending, so [svg2PngDir] never settles for such a directory. *)
Theorem svg2PngDir_no_match (files : list string)
    (size : option Sizes) (pages : option Z) :
  (forall file, file ∈ files -> Regex.SVG_REGEX_test file = false) ->
  fileMap_of path_join path_parse_name srcDir dstDir files = ∅
  /\ exists b,
       svg2PngDir path_join path_parse_name
         (svg2PngFiles worlds base64_encode base64_decode None)
         (inr files) srcDir dstDir size pages = inr b
       /\ forall evs s,
            exec ∅ (settles b) (pool b) evs = Some s ->
            evs = [] /\ batch s = None.
Proof.
  intros Hnone.
  assert (Hmap : fileMap_of path_join path_parse_name srcDir dstDir files
                 = ∅).
  { unfold fileMap_of.
    replace (filter _ files) with (@nil string); [reflexivity|].
    symmetry. induction files as [|f l IH]; [reflexivity|].
    rewrite filter_cons_False.
    - apply IH. intros file Hin. apply Hnone. now right.
    - rewrite (Hnone f) by now left. discriminate. }
  split; [exact Hmap|].
  unfold svg2PngDir, svg2PngFiles. rewrite Hmap. eexists. split;
    [reflexivity|].
  cbn [pool settles]. intros evs s Hexec.
  assert (Hstart : convertMany ∅ (default PARALLEL_PAGES
                                    (Some (default PARALLEL_PAGES pages)))
                   = {| restWorkers := []; running := []; reactions := 0;
                        results := []; errors := []; batch := None |}).
  { rewrite convertMany_start. unfold Object_keys.
    rewrite map_to_list_empty. cbn [fmap list_fmap].
    now rewrite take_nil, drop_nil. }
  rewrite Hstart in Hexec.
  apply exec_stuck in Hexec; [|reflexivity..].
  destruct Hexec as [-> ->]. auto.
Qed.

End NoMatch.

End DirectoryFacts.

End Svg2PngMany.

Arguments Sizes : clear implicits.
Arguments result : clear implicits.
Arguments Element : clear implicits.
Arguments World : clear implicits.
Arguments State : clear implicits.

(** * A model of the numbers, and the module run on concrete inputs

    Whole numbers with [NaN], printed and parsed in decimal: enough to run
    the functions above on sizes such as 100 by 100.  Division is the
    quotient, exact on the inputs used below. *)

Module IntNumber.

Definition number : Type := option Z.

Definition to_boolean (n : number) : bool :=
  match n with
  | Some z => negb (z =? 0)%Z
  | None => false
  end.

Definition times (a b : number) : number :=
  match a, b with
  | Some x, Some y => Some (x * y)%Z
  | _, _ => None
  end.

Definition quotient (a b : number) : number :=
  match a, b with
  | Some x, Some y => if (y =? 0)%Z then None else Some (x / y)%Z
  | _, _ => None
  end.

Definition to_string (n : number) : string :=
  match n with
  | None => "NaN"
  | Some z =>
      match Z.to_int z with
      | Decimal.Pos d => NilEmpty.string_of_uint d
      | Decimal.Neg d => String "-" (NilEmpty.string_of_uint d)
      end
  end.

(** The longest prefix of decimal digits. *)
Fixpoint read_uint (s : string) : Decimal.uint :=
  match s with
  | EmptyString => Decimal.Nil
  | String c s' =>
      match uint_of_char c (Some (read_uint s')) with
      | Some d => d
      | None => Decimal.Nil
      end
  end.

Definition of_digits (sign : Decimal.uint -> Decimal.signed_int)
    (d : Decimal.uint) : number :=
  match d with
  | Decimal.Nil => None
  | _ => Some (Z.of_int (sign d))
  end.

Definition parse_float (s : string) : number :=
  match s with
  | EmptyString => None
  | String c s' =>
      if Ascii.eqb c "-" then of_digits Decimal.Neg (read_uint s')
      else of_digits Decimal.Pos (read_uint s)
  end.

Lemma read_uint_px (d : Decimal.uint) :
  read_uint (NilEmpty.string_of_uint d +:+ "px") = d.
Proof.
  induction d as [|d IH|d IH|d IH|d IH|d IH|d IH|d IH|d IH|d IH|d IH];
    [reflexivity|..]; simpl; rewrite IH; reflexivity.
Qed.

Lemma of_digits_to_int (sign : Decimal.uint -> Decimal.signed_int)
    (d : Decimal.uint) (z : Z) :
  Z.to_int z = sign d -> Z.of_int (sign Decimal.Nil) = 0%Z -> z <> 0%Z ->
  of_digits sign d = Some z.
Proof.
  intros Hd Hnil Hz. pose proof (DecimalZ.of_to z) as Hof. rewrite Hd in Hof.
  destruct d; cbn [of_digits]; rewrite ?Hof; try reflexivity.
  congruence.
Qed.

Lemma parse_float_px (n : number) :
  to_boolean n = true -> parse_float (to_string n +:+ "px") = n.
Proof.
  destruct n as [z|]; [|discriminate]. cbn [to_boolean to_string].
  rewrite negb_true_iff, Z.eqb_neq. intros Hz.
  destruct (Z.to_int z) as [d|d] eqn:Hd.
  - rewrite <- (of_digits_to_int Decimal.Pos d z Hd eq_refl Hz).
    rewrite <- (read_uint_px d) at 2.
    destruct d; reflexivity.
  - rewrite <- (of_digits_to_int Decimal.Neg d z Hd eq_refl Hz).
    rewrite <- (read_uint_px d) at 2. reflexivity.
Qed.

#[global] Instance IntNumber : JSNumber number := {|
  NaN := None;
  zero := Some 0%Z;
  ToBoolean := to_boolean;
  mul := times;
  div := quotient;
  ToString := to_string;
  parseFloat := parse_float;
  ToBoolean_NaN := eq_refl;
  ToBoolean_zero := eq_refl;
  parseFloat_null := eq_refl;
  parseFloat_px := parse_float_px
|}.

End IntNumber.

(** ** Sample inputs *)

Section Samples.

Import IntNumber.

Definition sizes (w h : option Z) : Sizes number :=
  {| width := Some <$> w; height := Some <$> h |}.

(** [<svg width="200" height="50" viewBox="0 0 10 20">] *)
Definition sample_document : Element number :=
  {| attributes := <["width" := "200"]> (<["height" := "50"]> ∅);
     viewBox := Some (Some 10%Z, Some 20%Z) |}.

(** [<svg viewBox="0 0 10 20">] *)
Definition unsized_document : Element number :=
  {| attributes := ∅; viewBox := Some (Some 10%Z, Some 20%Z) |}.

Definition sample_world : World number :=
  {| createPage_reply := None;
     readFile_reply := inr "<svg/>";
     readFile_first := false;
     open_reply := inr "success";
     document := sample_document;
     evaluate_reply := fun _ => None;
     property_reply := None;
     renderBase64_reply := inr "iVBORw0KGgo=";
     writeFile_reply := None |}.

Definition with_document (el : Element number) (w : World number)
    : World number :=
  {| createPage_reply := createPage_reply w;
     readFile_reply := readFile_reply w;
     readFile_first := readFile_first w;
     open_reply := open_reply w;
     document := el;
     evaluate_reply := evaluate_reply w;
     property_reply := property_reply w;
     renderBase64_reply := renderBase64_reply w;
     writeFile_reply := writeFile_reply w |}.

(** The source file cannot be read. *)
Definition unreadable_world : World number :=
  {| createPage_reply := None;
     readFile_reply := inl (Fault "ENOENT");
     readFile_first := true;
     open_reply := inr "success";
     document := sample_document;
     evaluate_reply := fun _ => None;
     property_reply := None;
     renderBase64_reply := inr "iVBORw0KGgo=";
     writeFile_reply := None |}.

(** The page does not load the content. *)
Definition failed_load_world : World number :=
  {| createPage_reply := None;
     readFile_reply := inr "<svg/>";
     readFile_first := false;
     open_reply := inr "fail";
     document := sample_document;
     evaluate_reply := fun _ => None;
     property_reply := None;
     renderBase64_reply := inr "iVBORw0KGgo=";
     writeFile_reply := None |}.

(** Stand-ins for the two codecs. *)
Definition codec (s : string) : string := s.

Definition sample_fileMap : gmap string string :=
  <["a.svg" := "a.png"]> (<["b.svg" := "b.png"]> (<["c.svg" := "c.png"]> ∅)).

(** The job of [b.svg] fails, the other two succeed. *)
Definition sample_outcome (srcPath : string) : error + string :=
  if decide (srcPath = "b.svg") then inl (Fault "ENOENT")
  else inr (default "" (sample_fileMap !! srcPath)).

Definition posix_join (dir file : string) : string := dir +:+ "/" +:+ file.

(** The name part of an entry the filter accepts: all but its last four
    characters. *)
Fixpoint drop_extension (file : string) : string :=
  match file with
  | String c rest =>
      match rest with
      | String _ (String _ (String _ (String _ _))) =>
          String c (drop_extension rest)
      | _ => EmptyString
      end
  | EmptyString => EmptyString
  end.

End Samples.

(** A request of 100 by 100 on a document of 200 by 50. *)
Example worker_100_by_100 :
  worker sample_world codec codec "a.svg" "a.png"
    (Some (sizes (Some 100%Z) (Some 100%Z))) start
  = ({| root := {| attributes :=
                     <["width" := "100px"]> (<["height" := "100px"]> ∅);
                   viewBox := Some (Some 10%Z, Some 20%Z) |};
        viewportSize := Some (SizesObj (sizes (Some 100%Z) (Some 100%Z)));
        log := [CreatePage; ReadFile; Open; Evaluate; Evaluate; Evaluate;
                SetViewport; RenderBase64; Close; WriteFile] |},
     inr "a.png").
Proof. vm_compute. reflexivity. Qed.

(** No request: the declared 200 by 50 becomes the viewport. *)
Example resolveDimensions_declared :
  viewportSize
    (resolveDimensions sample_world None
       {| root := sample_document; viewportSize := None; log := [] |}).1
  = Some (SizesObj (sizes (Some 200%Z) (Some 50%Z))).
Proof. vm_compute. reflexivity. Qed.

(** A width of 50 alone on a view box of 10 by 20: the height is 100. *)
Example resolveDimensions_width_only :
  viewportSize
    (resolveDimensions sample_world (Some (sizes (Some 50%Z) None))
       {| root := unsized_document; viewportSize := None; log := [] |}).1
  = Some (SizesObj (sizes (Some 50%Z) (Some 100%Z))).
Proof. vm_compute. reflexivity. Qed.

(** No request on a document without declared sizes: the query returns
    [null], the second [setSVGDimensions] raises on it, and the job is
    rejected after closing the page. *)
Example convert_unsized_document :
  let run := convert (with_document unsized_document sample_world)
               codec codec "a.svg" None start in
  run.2 = inl TypeError
  /\ log run.1
     = [CreatePage; ReadFile; Open; Evaluate; Evaluate; Evaluate; Close].
Proof. vm_compute. split; reflexivity. Qed.

(** A percentage is absent: the width comes from the view box. *)
Example getSVGDimensions_percent :
  getSVGDimensions
    {| attributes := <["width" := "100%"]> (<["height" := "40"]> ∅);
       viewBox := Some (Some 10%Z, Some 20%Z) |}
  = SizesObj (sizes (Some 20%Z) (Some 40%Z)).
Proof. vm_compute. reflexivity. Qed.

(** A declared width of zero is absent as well. *)
Example getSVGDimensions_zero :
  getSVGDimensions
    {| attributes := <["width" := "0"]> (<["height" := "40"]> ∅);
       viewBox := Some (Some 0%Z, Some 0%Z) |}
  = Null.
Proof. vm_compute. reflexivity. Qed.

Example SVG_REGEX_examples :
  map Regex.SVG_REGEX_test
    ["a.svg"; "B.SVG"; "c.Svg"; ".svg"; "d.png"; "e.svg.txt"; "svg"; "f.svgz"]
  = [true; true; true; true; false; false; false; false].
Proof. reflexivity. Qed.

Example fileMap_of_example :
  map_to_list
    (fileMap_of posix_join drop_extension "in" "out"
       ["a.svg"; "notes.txt"; "B.SVG"])
  ≡ₚ [("in/a.svg", "out/a.png"); ("in/B.SVG", "out/B.png")].
Proof. vm_compute. reflexivity. Qed.

(** A zero width next to a height of 40: the height is written, the
    width attribute is removed. *)
Example setSVGDimensions_zero_width :
  map_to_list
    (attributes
       (setSVGDimensions sample_document
          (SizesObj (sizes (Some 0%Z) (Some 40%Z)))).1)
  = [("height", "40px")].
Proof. vm_compute. reflexivity. Qed.

(** Three jobs on two pages, the file of [b.svg] unreadable: the batch is
    rejected with the one error once the three jobs have settled. *)
Example batch_with_unreadable_file :
  let worlds := fun srcPath : string =>
                  if decide (srcPath = "b.svg") then unreadable_world
                  else sample_world in
  let outcome := job worlds codec codec sample_fileMap None in
  exec sample_fileMap outcome (convertMany sample_fileMap 2)
    [Settle "a.svg"; ProcessNext; Settle "b.svg"; Settle "c.svg";
     ProcessNext; ProcessNext]
  = Some {| restWorkers := []; running := []; reactions := 0;
            results := ["a.png"; "c.png"]; errors := [Fault "ENOENT"];
            batch := Some (Rejected [Fault "ENOENT"]) |}.
Proof. vm_compute. reflexivity. Qed.

(** Without a page to run on nothing is started either: the batch of a
    non-empty map stays pending. *)
Example convertMany_no_pages :
  convertMany sample_fileMap 0
  = {| restWorkers := ["c.svg"; "a.svg"; "b.svg"]; running := [];
       reactions := 0; results := []; errors := []; batch := None |}.
Proof. vm_compute. reflexivity. Qed.

(** ** The theorems at concrete inputs *)

Lemma convertMany_batch_result_witness :
  let evs := [Settle "a.svg"; ProcessNext; Settle "c.svg"; Settle "b.svg";
              ProcessNext; ProcessNext] in
  let s := {| restWorkers := []; running := []; reactions := 0;
              results := ["a.png"; "c.png"]; errors := [Fault "ENOENT"];
              batch := Some (Rejected [Fault "ENOENT"]) |} in
  exec sample_fileMap sample_outcome (convertMany sample_fileMap 2) evs
  = Some s
  /\ batch s = Some (Rejected [Fault "ENOENT"])
  /\ settled_of evs ≡ₚ Object_keys sample_fileMap
  /\ (reasons_of sample_outcome (settled_of evs) = []
      /\ Rejected [Fault "ENOENT"]
         = Resolved (values_of sample_outcome (settled_of evs))
      \/ reasons_of sample_outcome (settled_of evs) <> []
         /\ Rejected [Fault "ENOENT"]
            = Rejected (reasons_of sample_outcome (settled_of evs))).
Proof.
  intros evs s.
  assert (Hexec : exec sample_fileMap sample_outcome
                    (convertMany sample_fileMap 2) evs = Some s)
    by (vm_compute; reflexivity).
  assert (Hbatch : batch s = Some (Rejected [Fault "ENOENT"]))
    by reflexivity.
  split; [exact Hexec | split; [exact Hbatch|]].
  exact (proj1 (convertMany_batch_result sample_fileMap 2 sample_outcome)
           evs s (Rejected [Fault "ENOENT"]) Hexec Hbatch).
Defined.

Lemma convertMany_bounded_witness :
  (1 <= 2)%Z
  /\ length (running (convertMany sample_fileMap 2)) = 2%nat
  /\ (forall evs s,
        exec sample_fileMap sample_outcome (convertMany sample_fileMap 2) evs
        = Some s ->
        (length (running s) + reactions s <= 2)%nat).
Proof.
  assert (Hpages : (1 <= 2)%Z) by lia.
  destruct (convertMany_bounded sample_fileMap 2 sample_outcome Hpages)
    as [Hstart Hrun].
  split; [exact Hpages | split].
  - vm_compute. reflexivity.
  - intros evs s Hexec. destruct (Hrun evs s Hexec) as [Hbound _].
    change (length (Object_keys sample_fileMap)) with 3%nat in Hbound. lia.
Defined.

Lemma convert_read_failure_witness :
  createPage_reply unreadable_world = None
  /\ readFile_reply unreadable_world = inl (Fault "ENOENT")
  /\ (convert unreadable_world codec codec "a.svg" None start).2
     = inl (Fault "ENOENT")
  /\ log (convert unreadable_world codec codec "a.svg" None start).1
     = [CreatePage; ReadFile]
  /\ Close ∉ log (convert unreadable_world codec codec "a.svg" None start).1.
Proof.
  split; [reflexivity | split; [reflexivity|]].
  exact (convert_read_failure_leaves_page_open unreadable_world codec codec
           "a.svg" None (Fault "ENOENT") eq_refl eq_refl).
Defined.

Lemma resolveDimensions_requested_viewport_witness :
  let st := {| root := sample_document; viewportSize := None; log := [] |} in
  let size := sizes (Some 100%Z) (Some 100%Z) in
  (resolveDimensions sample_world (Some size) st).2 = inr tt
  /\ viewportSize (resolveDimensions sample_world (Some size) st).1
     = Some (SizesObj size).
Proof.
  intros st size.
  exact (resolveDimensions_requested_viewport sample_world st
           (Some 100%Z) (Some 100%Z) eq_refl eq_refl
           (fun k => eq_refl) eq_refl).
Defined.

Lemma worker_load_failure_witness :
  let run := worker failed_load_world codec codec "a.svg" "a.png" None
               start in
  (exists message,
      run.2 = inl (Error message)
      /\ contains "a.svg" message /\ contains "fail" message)
  /\ log run.1 = [CreatePage; ReadFile; Open; Close]
  /\ (forall c, c ∈ [Evaluate; SetViewport; RenderBase64; WriteFile] ->
        c ∉ log run.1).
Proof.
  apply (worker_load_failure failed_load_world codec codec "a.svg" "a.png"
           None "<svg/>" "fail"); [reflexivity | reflexivity | reflexivity |].
  discriminate.
Defined.

(** ** Further properties at concrete inputs *)

(** The engine hands over no page. *)
Definition no_page_world : World IntNumber.number :=
  {| createPage_reply := Some (Fault "phantom");
     readFile_reply := inr "<svg/>";
     readFile_first := false;
     open_reply := inr "success";
     document := sample_document;
     evaluate_reply := fun _ => None;
     property_reply := None;
     renderBase64_reply := inr "iVBORw0KGgo=";
     writeFile_reply := None |}.

Lemma sample_fileMap_not_empty : sample_fileMap <> ∅.
Proof.
  intros Hempty.
  assert (Hsize : size sample_fileMap = 0%nat)
    by (rewrite Hempty; apply map_size_empty).
  vm_compute in Hsize. discriminate.
Defined.

Lemma convertMany_settles_once_witness :
  let s := {| restWorkers := ["b.svg"]; running := ["c.svg"];
              reactions := 1; results := ["a.png"]; errors := [];
              batch := None |} in
  (batch s <> None ->
   restWorkers s = [] /\ running s = []
   /\ (length (errors s) + length (results s))%nat
      = length (Object_keys sample_fileMap))
  /\ (forall ev s' v,
        step sample_fileMap sample_outcome s ev = Some s' ->
        batch s = Some v -> batch s' = Some v)
  /\ (exists evs' s',
        exec sample_fileMap sample_outcome s evs' = Some s'
        /\ batch s' <> None).
Proof.
  intros s.
  assert (Hpages : (1 <= 2)%Z) by lia.
  assert (Hexec : exec sample_fileMap sample_outcome
                    (convertMany sample_fileMap 2) [Settle "a.svg"]
                  = Some s) by (vm_compute; reflexivity).
  exact (convertMany_settles_once sample_fileMap 2 sample_outcome Hpages
           sample_fileMap_not_empty [Settle "a.svg"] s Hexec).
Defined.

Lemma convert_closes_page_witness :
  exists l,
    log (convert sample_world codec codec "a.svg" None start).1
    = [CreatePage; ReadFile] ++ l ++ [Close]
    /\ Close ∉ l.
Proof.
  exact (convert_closes_page sample_world codec codec "a.svg" None "<svg/>"
           eq_refl eq_refl).
Defined.

Lemma worker_fulfilled_wrote_witness :
  "a.png" = "a.png"
  /\ WriteFile
     ∈ log (worker sample_world codec codec "a.svg" "a.png" None start).1.
Proof.
  apply (worker_fulfilled_wrote sample_world codec codec "a.svg" "a.png" None
           start "a.png").
  vm_compute. reflexivity.
Defined.

Lemma convertMany_every_job_settles_witness :
  let evs := [Settle "a.svg"] in
  let s := {| restWorkers := ["b.svg"]; running := ["c.svg"];
              reactions := 1; results := ["a.png"]; errors := [];
              batch := None |} in
  restWorkers s ++ running s ++ settled_of evs ≡ₚ Object_keys sample_fileMap
  /\ NoDup (restWorkers s ++ running s ++ settled_of evs)
  /\ (exists evs' s',
        exec sample_fileMap sample_outcome s evs' = Some s'
        /\ settled_of (evs ++ evs') ≡ₚ Object_keys sample_fileMap).
Proof.
  intros evs s.
  assert (Hpages : (1 <= 2)%Z) by lia.
  assert (Hexec : exec sample_fileMap sample_outcome
                    (convertMany sample_fileMap 2) evs = Some s)
    by (vm_compute; reflexivity).
  exact (convertMany_every_job_settles sample_fileMap 2 sample_outcome
           evs s Hpages Hexec).
Defined.

Lemma convertMany_eager_refill_witness :
  let s := {| restWorkers := ["b.svg"]; running := ["c.svg"];
              reactions := 1; results := ["a.png"]; errors := [];
              batch := None |} in
  (length (running s) + reactions s)%nat
  = Nat.min (Z.to_nat 2) (length (Object_keys sample_fileMap)).
Proof.
  intros s.
  assert (Hexec : exec sample_fileMap sample_outcome
                    (convertMany sample_fileMap 2) [Settle "a.svg"]
                  = Some s) by (vm_compute; reflexivity).
  assert (Hrest : restWorkers s <> []) by discriminate.
  exact (convertMany_eager_refill sample_fileMap 2 sample_outcome
           [Settle "a.svg"] s Hexec Hrest).
Defined.

Lemma convertMany_run_length_witness :
  let evs := [Settle "a.svg"; ProcessNext; Settle "c.svg"] in
  let s := {| restWorkers := []; running := ["b.svg"]; reactions := 1;
              results := ["a.png"; "c.png"]; errors := []; batch := None |} in
  (length evs + reactions s)%nat = (2 * length (settled_of evs))%nat
  /\ (length evs <= 2 * length (Object_keys sample_fileMap))%nat.
Proof.
  intros evs s.
  assert (Hexec : exec sample_fileMap sample_outcome
                    (convertMany sample_fileMap 2) evs = Some s)
    by (vm_compute; reflexivity).
  exact (convertMany_run_length sample_fileMap 2 sample_outcome evs s Hexec).
Defined.

Lemma convertMany_without_pages_witness :
  convertMany sample_fileMap 0
  = {| restWorkers := Object_keys sample_fileMap; running := [];
       reactions := 0; results := []; errors := []; batch := None |}
  /\ (forall evs s,
        exec sample_fileMap sample_outcome (convertMany sample_fileMap 0) evs
        = Some s ->
        evs = [] /\ batch s = None).
Proof.
  assert (Hpages : (0 <= 0)%Z) by lia.
  exact (convertMany_without_pages sample_fileMap 0 sample_outcome Hpages).
Defined.

Lemma posix_join_injective (dir f g : string) :
  posix_join dir f = posix_join dir g -> f = g.
Proof.
  unfold posix_join. induction dir as [|c dir IH]; cbn.
  - intros Heq. now injection Heq.
  - intros Heq. injection Heq as Heq. now apply IH.
Defined.

Lemma fileMap_of_size_witness :
  length
    (Object_keys
       (fileMap_of posix_join drop_extension "in" "out"
          ["a.svg"; "notes.txt"; "B.SVG"]))
  = length
      (filter (fun file => Regex.SVG_REGEX_test file = true)
         ["a.svg"; "notes.txt"; "B.SVG"]).
Proof.
  apply fileMap_of_size.
  - intros f g _ _. apply posix_join_injective.
  - apply (bool_decide_unpack _). vm_compute. exact I.
Defined.

Lemma svg2PngDir_no_match_witness :
  fileMap_of posix_join drop_extension "in" "out" ["notes.txt"; "a.png"]
  = ∅
  /\ exists b,
       svg2PngDir posix_join drop_extension
         (svg2PngFiles (fun _ => sample_world) codec codec None)
         (inr ["notes.txt"; "a.png"]) "in" "out" None None = inr b
       /\ forall evs s,
            exec ∅ (settles b) (pool b) evs = Some s ->
            evs = [] /\ batch s = None.
Proof.
  apply svg2PngDir_no_match.
  intros file Hin. rewrite !elem_of_cons in Hin.
  destruct Hin as [-> | [-> | Hin]]; [reflexivity | reflexivity |].
  now apply elem_of_nil in Hin.
Defined.

Lemma getSVGDimensions_without_viewBox_witness :
  getSVGDimensions
    {| attributes := <["width" := "100"]> ∅;
       viewBox := @None (IntNumber.number * IntNumber.number) |}
  = ErrorObj TypeError.
Proof.
  apply getSVGDimensions_without_viewBox; [reflexivity|].
  right. vm_compute. reflexivity.
Defined.

Lemma resolveDimensions_intrinsic_witness :
  let st := {| root := sample_document; viewportSize := None; log := [] |} in
  let d := sizes (Some 200%Z) (Some 50%Z) in
  (resolveDimensions sample_world None st).2 = inr tt
  /\ viewportSize (resolveDimensions sample_world None st).1
     = Some (SizesObj d)
  /\ root (resolveDimensions sample_world None st).1
     = (setSVGDimensions (root st) (SizesObj d)).1.
Proof.
  intros st d.
  apply (resolveDimensions_intrinsic sample_world st None d);
    reflexivity.
Defined.

Lemma resolveDimensions_undetermined_witness :
  let st := {| root := unsized_document; viewportSize := None; log := [] |} in
  (resolveDimensions sample_world None st).2 = inl TypeError
  /\ viewportSize (resolveDimensions sample_world None st).1 = viewportSize st
  /\ log (resolveDimensions sample_world None st).1
     = log st ++ [Evaluate; Evaluate; Evaluate].
Proof.
  intros st.
  apply (resolveDimensions_undetermined sample_world st None);
    [reflexivity|].
  vm_compute. reflexivity.
Defined.

Lemma resolveDimensions_width_request_witness :
  let st := {| root := sample_document; viewportSize := None; log := [] |} in
  let run := resolveDimensions sample_world
               (Some (sizes (Some 50%Z) None)) st in
  run.2 = inr tt
  /\ viewportSize run.1 = Some (SizesObj (sizes (Some 50%Z) (Some 100%Z))).
Proof.
  intros st.
  exact (resolveDimensions_width_request sample_world st (Some 50%Z) None
           (Some 10%Z) (Some 20%Z) (fun k => eq_refl) eq_refl eq_refl
           eq_refl eq_refl).
Defined.

Lemma resolveDimensions_height_request_witness :
  let st := {| root := sample_document; viewportSize := None; log := [] |} in
  let run := resolveDimensions sample_world
               (Some (sizes None (Some 40%Z))) st in
  run.2 = inr tt
  /\ viewportSize run.1 = Some (SizesObj (sizes (Some 20%Z) (Some 40%Z))).
Proof.
  intros st.
  exact (resolveDimensions_height_request sample_world st (Some 40%Z) None
           (Some 10%Z) (Some 20%Z) (fun k => eq_refl) eq_refl eq_refl
           eq_refl eq_refl).
Defined.

Lemma convert_fulfilled_witness :
  let run := convert sample_world codec codec "a.svg"
               (Some (sizes (Some 100%Z) (Some 100%Z))) start in
  createPage_reply sample_world = None
  /\ (exists data, readFile_reply sample_world = inr data)
  /\ open_reply sample_world = inr "success"
  /\ (exists imageBase64,
        renderBase64_reply sample_world = inr imageBase64
        /\ "iVBORw0KGgo=" = codec imageBase64)
  /\ log run.1
     = [CreatePage; ReadFile; Open; Evaluate; Evaluate; Evaluate;
        SetViewport; RenderBase64; Close]
  /\ (exists d, viewportSize run.1 = Some (SizesObj d)).
Proof.
  intros run.
  apply (convert_fulfilled sample_world codec codec "a.svg"
           (Some (sizes (Some 100%Z) (Some 100%Z))) "iVBORw0KGgo=").
  vm_compute. reflexivity.
Defined.

Lemma worker_rejected_writes_nothing_witness :
  (worker failed_load_world codec codec "a.svg" "a.png" None start).2
  = inl (Error "File a.svg has been opened with status fail")
  /\ exists l,
       log (worker failed_load_world codec codec "a.svg" "a.png" None
              start).1
       = log (start (number := IntNumber.number)) ++ l
       /\ WriteFile ∉ l.
Proof.
  apply worker_rejected_writes_nothing. vm_compute. reflexivity.
Defined.

Lemma convert_without_page_witness :
  log (convert no_page_world codec codec "a.svg" None start).1
  = [CreatePage; ReadFile]
  /\ (convert no_page_world codec codec "a.svg" None start).2
     = inl (Fault "phantom").
Proof.
  exact (convert_without_page no_page_world codec codec "a.svg" None
           (Fault "phantom") eq_refl).
Defined.

(** Two jobs on one page, neither source file readable: after both have
    settled two pages are open, one more than the pool allows. *)
Example two_unreadable_sources_one_page :
  let fileMap : gmap string string :=
    <["a.svg" := "a.png"]> (<["b.svg" := "b.png"]> ∅) in
  let worlds := fun _ : string => unreadable_world in
  let evs := [Settle "a.svg"; ProcessNext; Settle "b.svg"] in
  exec fileMap (job worlds codec codec fileMap None)
    (convertMany fileMap 1) evs
  = Some {| restWorkers := []; running := []; reactions := 1;
            results := []; errors := [Fault "ENOENT"; Fault "ENOENT"];
            batch := None |}
  /\ job_state worlds codec codec fileMap None "a.svg"
     = {| root := blank; viewportSize := None;
          log := [CreatePage; ReadFile] |}
  /\ open_contexts worlds codec codec fileMap None (settled_of evs) = 2%nat.
Proof. vm_compute. repeat split; reflexivity. Qed.

Lemma convertMany_open_contexts_exceed_witness :
  let fileMap : gmap string string :=
    <["a.svg" := "a.png"]> (<["b.svg" := "b.png"]> ∅) in
  let worlds := fun _ : string => unreadable_world in
  exists evs s,
    exec fileMap (job worlds codec codec fileMap None)
      (convertMany fileMap 1) evs = Some s
    /\ open_contexts worlds codec codec fileMap None (settled_of evs)
       = length (Object_keys fileMap)
    /\ (Z.min 1 (Z.of_nat (length (Object_keys fileMap)))
        < Z.of_nat
            (open_contexts worlds codec codec fileMap None
               (settled_of evs)))%Z.
Proof.
  intros fileMap worlds.
  apply (convertMany_open_contexts_exceed worlds codec codec fileMap None 1).
  - intros srcPath. reflexivity.
  - intros srcPath. exists (Fault "ENOENT"). reflexivity.
  - lia.
  - vm_compute. reflexivity.
Defined.
